(** * Account security of the registration / login application (app.py)

    A shallow embedding of the validators, the lockout helpers and the two
    request handlers [register] and [login] of [src/app.py], followed by the
    properties of the account-security state machine.

    Conventions of the embedding

    - A Python [str] is the list of its code points ([pystr]); [len] is
      [length].  Literal messages of the source are Rocq strings.
    - The SQLite tables [users] and [login_attempts] are lists of rows in
      rowid order.  [SELECT ... fetchone()] is the first matching row,
      [UPDATE ... WHERE] rewrites every matching row.
    - [datetime.now()] and [CURRENT_TIMESTAMP] are read from the environment
      of a call (microseconds, as integers); nothing relates two readings.
    - Every [with get_db_connection() as conn] block either runs to its end
      or raises [sqlite3.Error]; which blocks raise is part of the
      environment of a call.  A block of a helper that raises is rolled back
      by its connection, so the tables are left as they were, and the
      helper's [except] clause runs.  The block of [login] itself only
      reads: when it raises, the query has not answered and the handler's
      [except] clause runs. *)

From Stdlib Require Import List ZArith NArith Bool String Ascii Lia.
From Stdlib Require Import Permutation Sorted.
Import ListNotations.

Local Open Scope string_scope.
Local Open Scope list_scope.

(* ================================================================== *)
(** ** Python strings *)

Definition pystr := list N.

Definition chr (a : ascii) : N := N_of_ascii a.

(** An ASCII literal of the source as a Python string. *)
Definition py (s : string) : pystr := map chr (list_ascii_of_string s).

Definition pystr_eq_dec : forall a b : pystr, {a = b} + {a <> b} :=
  list_eq_dec N.eq_dec.

Definition pystr_eqb (a b : pystr) : bool :=
  if pystr_eq_dec a b then true else false.

(** [len(s)] *)
Definition len (s : pystr) : nat := List.length s.

(** [not s] of Python on a string: true on the empty string only. *)
Definition py_not (s : pystr) : bool :=
  match s with [] => true | _ :: _ => false end.

Definition in_range (lo hi : ascii) (c : N) : bool :=
  (chr lo <=? c)%N && (c <=? chr hi)%N.

Definition is_char (a : ascii) (c : N) : bool := (c =? chr a)%N.

Definition one_of (set : pystr) (c : N) : bool :=
  existsb (fun d => (c =? d)%N) set.

(** [str.isspace] on one code point, the table CPython uses for [strip()]. *)
Definition isspace (c : N) : bool :=
  ((9 <=? c) && (c <=? 13) || (28 <=? c) && (c <=? 32)
   || (c =? 133) || (c =? 160) || (c =? 5760)
   || (8192 <=? c) && (c <=? 8202)
   || (c =? 8232) || (c =? 8233) || (c =? 8239) || (c =? 8287)
   || (c =? 12288))%N.

Fixpoint lstrip (s : pystr) : pystr :=
  match s with
  | c :: s' => if isspace c then lstrip s' else s
  | [] => []
  end.

Definition rstrip (s : pystr) : pystr := rev (lstrip (rev s)).

(** [s.strip()] *)
Definition strip (s : pystr) : pystr := rstrip (lstrip s).

(* ================================================================== *)
(** ** The fragment of [re] the validators use

    Patterns are built from character classes, concatenation and repetition;
    matching is by derivatives, which accepts exactly the strings for which
    the backtracking matcher of [re] finds a match. *)

Inductive regex : Type :=
| Void
| Eps
| Class (p : N -> bool)
| Seq (r1 r2 : regex)
| Alt (r1 r2 : regex)
| Star (r : regex).

(** [r+] *)
Definition Plus (r : regex) : regex := Seq r (Star r).

(** [r{2,}] *)
Definition AtLeast2 (r : regex) : regex := Seq r (Seq r (Star r)).

Fixpoint nullable (r : regex) : bool :=
  match r with
  | Void => false
  | Eps => true
  | Class _ => false
  | Seq r1 r2 => nullable r1 && nullable r2
  | Alt r1 r2 => nullable r1 || nullable r2
  | Star _ => true
  end.

Fixpoint deriv (c : N) (r : regex) : regex :=
  match r with
  | Void => Void
  | Eps => Void
  | Class p => if p c then Eps else Void
  | Seq r1 r2 =>
      if nullable r1
      then Alt (Seq (deriv c r1) r2) (deriv c r2)
      else Seq (deriv c r1) r2
  | Alt r1 r2 => Alt (deriv c r1) (deriv c r2)
  | Star r1 => Seq (deriv c r1) (Star r1)
  end.

(** The whole of [s] is in the language of [r]. *)
Definition fullmatch (r : regex) (s : pystr) : bool :=
  nullable (fold_left (fun r' c => deriv c r') s r).

(** [s] without its last code point, when that is a line feed. *)
Definition chop_newline (s : pystr) : option pystr :=
  match rev s with
  | 10%N :: t => Some (rev t)
  | _ => None
  end.

(** [re.match('^' body '$', s) is not None].  Without [re.MULTILINE], [$]
    holds at the end of the string and also just before a line feed that is
    the last character of the string. *)
Definition re_match_bol_eol (body : regex) (s : pystr) : bool :=
  fullmatch body s
  || match chop_newline s with
     | Some s' => fullmatch body s'
     | None => false
     end.

(** [re.search('[...]', s)] for a single character class, as a truth value. *)
Definition re_search_class (cls : N -> bool) (s : pystr) : bool :=
  existsb cls s.

(** [[a-zA-Z]] *)
Definition cls_alpha (c : N) : bool :=
  in_range "a" "z" c || in_range "A" "Z" c.

(** [[a-zA-Z0-9]] *)
Definition cls_alnum (c : N) : bool :=
  cls_alpha c || in_range "0" "9" c.

(** [[a-zA-Z0-9_]] *)
Definition cls_username (c : N) : bool :=
  cls_alnum c || is_char "_" c.

(** [[a-zA-Z0-9._%+-]] *)
Definition cls_email_local (c : N) : bool :=
  cls_alnum c || one_of (py "._%+-") c.

(** [[a-zA-Z0-9.-]] *)
Definition cls_email_domain (c : N) : bool :=
  cls_alnum c || one_of (py ".-") c.

(** The class of the last rule of [validate_password]: the twenty code points
    ! @ # $ % ^ & * ( ) , . ? : { } | < > and the double quote (34). *)
Definition cls_special (c : N) : bool :=
  one_of (py "!@#$%^&*(),.?" ++ [34%N] ++ py ":{}|<>") c.

(** Body of the pattern of [validate_username], between [^] and [$]. *)
Definition username_pattern : regex := Plus (Class cls_username).

(** Body of the pattern of [validate_email], between [^] and [$]. *)
Definition email_pattern : regex :=
  Seq (Plus (Class cls_email_local))
    (Seq (Class (is_char "@"))
       (Seq (Plus (Class cls_email_domain))
          (Seq (Class (is_char "."))
             (AtLeast2 (Class cls_alpha))))).

(* ================================================================== *)
(** ** Validators *)

Definition msg_password_length := "Password must be at least 8 characters long".
Definition msg_password_upper := "Password must contain at least one uppercase letter".
Definition msg_password_lower := "Password must contain at least one lowercase letter".
Definition msg_password_digit := "Password must contain at least one digit".
Definition msg_password_special := "Password must contain at least one special character".
Definition msg_password_valid := "Password is valid".

Definition msg_username_length := "Username must be between 3 and 20 characters".
Definition msg_username_charset := "Username can only contain letters, numbers, and underscores".
Definition msg_username_valid := "Username is valid".

Definition validate_email (email : pystr) : bool :=
  re_match_bol_eol email_pattern email.

Definition validate_username (username : pystr) : bool * string :=
  if (len username <? 3)%nat || (20 <? len username)%nat then
    (false, msg_username_length)
  else if negb (re_match_bol_eol username_pattern username) then
    (false, msg_username_charset)
  else
    (true, msg_username_valid).

Section Validators.

(** [\d] of a [str] pattern: the code points of Unicode category Nd, a table
    of the interpreter's Unicode database. *)
Variable unicode_decimal : N -> bool.

Definition validate_password (password : pystr) : bool * string :=
  if (len password <? 8)%nat then
    (false, msg_password_length)
  else if negb (re_search_class (in_range "A" "Z") password) then
    (false, msg_password_upper)
  else if negb (re_search_class (in_range "a" "z") password) then
    (false, msg_password_lower)
  else if negb (re_search_class unicode_decimal password) then
    (false, msg_password_digit)
  else if negb (re_search_class cls_special password) then
    (false, msg_password_special)
  else
    (true, msg_password_valid).

End Validators.

(* ================================================================== *)
(** ** The database *)

(** A row of [users].  [account_locked_until] holds the [isoformat()] text of
    a [datetime], read back with [fromisoformat]: the round trip is exact,
    so the column is kept as the time it denotes.  The counter is a SQLite
    integer; the handlers only ever add one to it, and it is kept unbounded. *)
Record user : Type := mkUser {
  user_id : Z;
  username : pystr;
  email : pystr;
  password_hash : pystr;
  created_at : Z;
  last_login : option Z;
  failed_login_attempts : Z;
  account_locked_until : option Z
}.

(** A row of [login_attempts]. *)
Record login_attempt : Type := mkAttempt {
  attempt_id : Z;
  attempt_username : pystr;
  attempt_ip_address : pystr;
  attempt_success : bool;
  attempt_timestamp : Z
}.

(** The two tables with their AUTOINCREMENT counters (the largest id handed
    out so far). *)
Record db : Type := mkDb {
  users : list user;
  users_seq : Z;
  login_attempts : list login_attempt;
  login_attempts_seq : Z
}.

(** [init_db()] on a fresh file. *)
Definition init_db : db := mkDb [] 0 [] 0.

Definition set_users (st : db) (rows : list user) : db :=
  mkDb rows (users_seq st) (login_attempts st) (login_attempts_seq st).

(** The outcome of one [with get_db_connection() as conn] block. *)
Inductive conn : Type :=
| ConnOk
| ConnError.

(** [SELECT ... FROM users WHERE username = ?] with [fetchone()]. *)
Definition find_user (uname : pystr) (rows : list user) : option user :=
  find (fun r => pystr_eqb (username r) uname) rows.

(** [UPDATE users SET ... WHERE username = ?] *)
Definition update_users (uname : pystr) (f : user -> user)
    (rows : list user) : list user :=
  map (fun r => if pystr_eqb (username r) uname then f r else r) rows.

(** [SET account_locked_until = NULL, failed_login_attempts = 0] *)
Definition set_unlocked (r : user) : user :=
  mkUser (user_id r) (username r) (email r) (password_hash r)
    (created_at r) (last_login r) 0 None.

(** [SET failed_login_attempts = failed_login_attempts + 1] *)
Definition set_failed_plus_one (r : user) : user :=
  mkUser (user_id r) (username r) (email r) (password_hash r)
    (created_at r) (last_login r) (failed_login_attempts r + 1)
    (account_locked_until r).

(** [SET account_locked_until = ?] *)
Definition set_locked_until (t : Z) (r : user) : user :=
  mkUser (user_id r) (username r) (email r) (password_hash r)
    (created_at r) (last_login r) (failed_login_attempts r) (Some t).

(** [SET failed_login_attempts = 0, account_locked_until = NULL,
    last_login = CURRENT_TIMESTAMP] *)
Definition set_login_success (t : Z) (r : user) : user :=
  mkUser (user_id r) (username r) (email r) (password_hash r)
    (created_at r) (Some t) 0 None.

(** [timedelta(minutes=30)], in microseconds. *)
Definition lockout_duration : Z := 30 * 60 * 1000000.

(* ================================================================== *)
(** ** Lockout helpers *)

(** [log_login_attempt].  [ip_address] is [request.remote_addr], which may be
    [None]; the column is NOT NULL, so that insert raises and, like any other
    error of the block, is logged and swallowed. *)
Definition log_login_attempt (c : conn) (now : Z) (uname : pystr)
    (ip_address : option pystr) (success : bool) (st : db) : db :=
  match c, ip_address with
  | ConnOk, Some ip =>
      let id := (login_attempts_seq st + 1)%Z in
      mkDb (users st) (users_seq st)
        (login_attempts st ++ [mkAttempt id uname ip success now]) id
  | _, _ => st
  end.

(** [is_account_locked]: the answer and the database it leaves. *)
Definition is_account_locked (c : conn) (now : Z) (uname : pystr)
    (st : db) : bool * db :=
  match c with
  | ConnError => (false, st)
  | ConnOk =>
      match find_user uname (users st) with
      | Some user =>
          match account_locked_until user with
          | Some lock_time =>
              if now <? lock_time then (true, st)
              else (false,
                    set_users st (update_users uname set_unlocked (users st)))
          | None => (false, st)
          end
      | None => (false, st)
      end
  end%Z.

(** [increment_failed_login] *)
Definition increment_failed_login (c : conn) (now : Z) (uname : pystr)
    (st : db) : db :=
  match c with
  | ConnError => st
  | ConnOk =>
      let rows := update_users uname set_failed_plus_one (users st) in
      match find_user uname rows with
      | Some user =>
          if (5 <=? failed_login_attempts user)%Z then
            let lock_until := (now + lockout_duration)%Z in
            set_users st (update_users uname (set_locked_until lock_until) rows)
          else set_users st rows
      | None => set_users st rows
      end
  end.

(** [reset_failed_login] *)
Definition reset_failed_login (c : conn) (now : Z) (uname : pystr)
    (st : db) : db :=
  match c with
  | ConnError => st
  | ConnOk => set_users st (update_users uname (set_login_success now) (users st))
  end.

(* ================================================================== *)
(** ** Request handlers *)

Inductive http_method : Type :=
| GET
| POST.

(** What a handler returns. *)
Inductive response : Type :=
| render_template (name : string)
| redirect (endpoint : string).

(** *** [login] *)

(** The paths through [login], with what each writes to the session. *)
Inductive login_result : Type :=
| LoginPage
| LoginRequired
| LoginLocked
| LoginSuccess (session_user_id : Z) (session_username : pystr)
| LoginInvalid
| LoginFailed.

Definition msg_login_required := "Username and password are required".
Definition msg_login_locked :=
  "Account is temporarily locked due to multiple failed login attempts. Please try again later.".
Definition msg_login_success := "Login successful!".
Definition msg_login_invalid := "Invalid username or password".
Definition msg_login_failed := "Login failed. Please try again.".

(** The message flashed on each path, with its category. *)
Definition login_flash (r : login_result) : option (string * string) :=
  match r with
  | LoginPage => None
  | LoginRequired => Some (msg_login_required, "error")
  | LoginLocked => Some (msg_login_locked, "error")
  | LoginSuccess _ _ => Some (msg_login_success, "success")
  | LoginInvalid => Some (msg_login_invalid, "error")
  | LoginFailed => Some (msg_login_failed, "error")
  end.

Definition login_response (r : login_result) : response :=
  match r with
  | LoginSuccess _ _ => redirect "dashboard"
  | _ => render_template "login.html"
  end.

(** The environment of one [login] request: the outcome of each connection
    block it may open and the clock readings it may take. *)
Record login_env : Type := mkLoginEnv {
  lock_conn : conn;     (* block of [is_account_locked] *)
  lookup_conn : conn;   (* block of [login] itself *)
  update_conn : conn;   (* block of [increment_failed_login] or [reset_failed_login] *)
  log_conn : conn;      (* block of [log_login_attempt] *)
  lock_now : Z;         (* [datetime.now()] in [is_account_locked] *)
  fail_now : Z;         (* [datetime.now()] in [increment_failed_login] *)
  stamp_now : Z;        (* [CURRENT_TIMESTAMP] in [reset_failed_login] *)
  log_now : Z           (* [CURRENT_TIMESTAMP] of the inserted attempt *)
}.

Section Handlers.

(** [werkzeug.security.check_password_hash(pwhash, password)] *)
Variable check_password_hash : pystr -> pystr -> bool.

(** [werkzeug.security.generate_password_hash(password)]; the second argument
    is the random salt it draws. *)
Variable generate_password_hash : pystr -> pystr -> pystr.

Variable unicode_decimal : N -> bool.

Definition login (e : login_env) (method : http_method)
    (form_username form_password : pystr) (remote_addr : option pystr)
    (st : db) : login_result * db :=
  match method with
  | GET => (LoginPage, st)
  | POST =>
      let uname := strip form_username in
      let password := form_password in
      let ip_address := remote_addr in
      if py_not uname || py_not password then (LoginRequired, st)
      else
        let (locked, st1) := is_account_locked (lock_conn e) (lock_now e) uname st in
        if locked then
          (LoginLocked, log_login_attempt (log_conn e) (log_now e) uname ip_address false st1)
        else
          match lookup_conn e with
          | ConnError => (LoginFailed, st1)
          | ConnOk =>
              match find_user uname (users st1) with
              | Some user =>
                  if check_password_hash (password_hash user) password then
                    let st2 := reset_failed_login (update_conn e) (stamp_now e) uname st1 in
                    let st3 := log_login_attempt (log_conn e) (log_now e) uname ip_address true st2 in
                    (LoginSuccess (user_id user) (username user), st3)
                  else
                    let st2 := increment_failed_login (update_conn e) (fail_now e) uname st1 in
                    let st3 := log_login_attempt (log_conn e) (log_now e) uname ip_address false st2 in
                    (LoginInvalid, st3)
              | None =>
                  let st2 := increment_failed_login (update_conn e) (fail_now e) uname st1 in
                  let st3 := log_login_attempt (log_conn e) (log_now e) uname ip_address false st2 in
                  (LoginInvalid, st3)
              end
          end
  end.

(** *** [register] *)

Inductive register_result : Type :=
| RegisterPage
| RegisterRequired
| RegisterBadUsername (username_msg : string)
| RegisterBadEmail
| RegisterBadPassword (password_msg : string)
| RegisterMismatch
| RegisterExists
| RegisterSuccess
| RegisterFailed.

Definition msg_register_required := "All fields are required".
Definition msg_register_email := "Invalid email format".
Definition msg_register_mismatch := "Passwords do not match".
Definition msg_register_exists := "Username or email already exists".
Definition msg_register_success := "Registration successful! Please log in.".
Definition msg_register_failed := "Registration failed. Please try again.".

Definition register_flash (r : register_result) : option (string * string) :=
  match r with
  | RegisterPage => None
  | RegisterRequired => Some (msg_register_required, "error")
  | RegisterBadUsername username_msg => Some (username_msg, "error")
  | RegisterBadEmail => Some (msg_register_email, "error")
  | RegisterBadPassword password_msg => Some (password_msg, "error")
  | RegisterMismatch => Some (msg_register_mismatch, "error")
  | RegisterExists => Some (msg_register_exists, "error")
  | RegisterSuccess => Some (msg_register_success, "success")
  | RegisterFailed => Some (msg_register_failed, "error")
  end.

Definition register_response (r : register_result) : response :=
  match r with
  | RegisterSuccess => redirect "login"
  | _ => render_template "register.html"
  end.

(** The four fields of the registration form; a missing field reads as the
    empty string. *)
Record register_form : Type := mkRegisterForm {
  form_username : pystr;
  form_email : pystr;
  form_password : pystr;
  form_confirm_password : pystr
}.

(** The environment of one [register] request. *)
Record register_env : Type := mkRegisterEnv {
  register_conn : conn;   (* the one connection block of [register] *)
  register_now : Z;       (* [CURRENT_TIMESTAMP] default of [created_at] *)
  register_salt : pystr   (* randomness of [generate_password_hash] *)
}.

(** [SELECT id FROM users WHERE username = ? OR email = ?] with [fetchone()] *)
Definition find_user_or_email (uname mail : pystr) (rows : list user) : option user :=
  find (fun r => pystr_eqb (username r) uname || pystr_eqb (email r) mail) rows.

(** [INSERT INTO users (username, email, password_hash)]: the other columns
    take their defaults. *)
Definition insert_user (now : Z) (uname mail pwhash : pystr) (st : db) : db :=
  let id := (users_seq st + 1)%Z in
  mkDb (users st ++ [mkUser id uname mail pwhash now None 0 None]) id
    (login_attempts st) (login_attempts_seq st).

Definition register (e : register_env) (method : http_method)
    (form : register_form) (st : db) : register_result * db :=
  match method with
  | GET => (RegisterPage, st)
  | POST =>
      let uname := strip (form_username form) in
      let mail := strip (form_email form) in
      let password := form_password form in
      let confirm_password := form_confirm_password form in
      if py_not uname || py_not mail || py_not password then
        (RegisterRequired, st)
      else
        let (username_valid, username_msg) := validate_username uname in
        if negb username_valid then (RegisterBadUsername username_msg, st)
        else if negb (validate_email mail) then (RegisterBadEmail, st)
        else
          let (password_valid, password_msg) :=
            validate_password unicode_decimal password in
          if negb password_valid then (RegisterBadPassword password_msg, st)
          else if negb (pystr_eqb password confirm_password) then
            (RegisterMismatch, st)
          else
            match register_conn e with
            | ConnError => (RegisterFailed, st)
            | ConnOk =>
                match find_user_or_email uname mail (users st) with
                | Some existing_user => (RegisterExists, st)
                | None =>
                    let pwhash := generate_password_hash password (register_salt e) in
                    (RegisterSuccess,
                     insert_user (register_now e) uname mail pwhash st)
                end
            end
  end.

(** *** Sequences of requests *)

Inductive request : Type :=
| Register (e : register_env) (method : http_method) (form : register_form)
| Login (e : login_env) (method : http_method)
    (form_username form_password : pystr) (remote_addr : option pystr).

(** The database after a request has been served. *)
Definition handle (r : request) (st : db) : db :=
  match r with
  | Register e method form => snd (register e method form st)
  | Login e method u p ip => snd (login e method u p ip st)
  end.

End Handlers.

(* ================================================================== *)
(** ** The session and the protected route *)

(** The session of one browser: the two keys the handlers store in it.  A
    key that is not in the session reads as [None]. *)
Record session : Type := mkSession {
  session_user_id : option Z;
  session_username : option pystr
}.

(** A session without keys: that of a new browser, and [session.clear()]. *)
Definition session_clear : session := mkSession None None.

(** The session after [login] has answered: only the success path writes to
    it, and it writes both keys. *)
Definition login_session (r : login_result) (s : session) : session :=
  match r with
  | LoginSuccess uid uname => mkSession (Some uid) (Some uname)
  | _ => s
  end.

(** A page served by a view that passes [username] to its template. *)
Inductive page : Type :=
| page_render (name : string) (shown_username : option pystr)
| page_redirect (endpoint : string).

(** [require_login]: the view [f] behind the decorator. *)
Definition require_login (f : session -> page) (s : session) : page :=
  match session_user_id s with
  | None => page_redirect "login"
  | Some _ => f s
  end.

(** [dashboard] *)
Definition dashboard : session -> page :=
  require_login (fun s => page_render "dashboard.html" (session_username s)).

Definition msg_logout := "You have been logged out successfully".

(** [logout]: the page and the session it leaves. *)
Definition logout (s : session) : page * session :=
  (page_redirect "index", session_clear).

(* ================================================================== *)
(** ** Monitoring endpoints *)

(** A JSON answer: a body with status 200, or an error status. *)
Inductive json_response (A : Type) : Type :=
| JsonOk (body : A)
| JsonError (status : Z).

Arguments JsonOk {A} body.
Arguments JsonError {A} status.

(** [user_count] *)
Definition user_count (c : conn) (st : db) : json_response Z :=
  match c with
  | ConnOk => JsonOk (Z.of_nat (List.length (users st)))
  | ConnError => JsonError 500
  end.

(** [WHERE username = ?] on [login_attempts]: the matching rows in rowid
    order. *)
Definition attempts_of (uname : pystr) (st : db) : list login_attempt :=
  filter (fun a => pystr_eqb (attempt_username a) uname) (login_attempts st).

(** Insertion of a row into a list ordered by decreasing timestamp, after
    the rows that are at least as recent. *)
Fixpoint insert_by_timestamp (a : login_attempt) (rows : list login_attempt)
    : list login_attempt :=
  match rows with
  | [] => [a]
  | b :: rest =>
      if (attempt_timestamp a <=? attempt_timestamp b)%Z
      then b :: insert_by_timestamp a rest
      else a :: b :: rest
  end.

(** [ORDER BY timestamp DESC] *)
Definition order_by_timestamp_desc (rows : list login_attempt)
    : list login_attempt :=
  fold_left (fun sorted a => insert_by_timestamp a sorted) rows [].

(** [get_login_attempts].  SQL leaves the order of rows with equal
    timestamps open; this function keeps them in rowid order.  The
    properties of the endpoint are stated for every answer the query may
    give, of which this is one. *)
Definition get_login_attempts (c : conn) (uname : pystr) (st : db)
    : json_response (list login_attempt) :=
  match c with
  | ConnOk => JsonOk (firstn 10 (order_by_timestamp_desc (attempts_of uname st)))
  | ConnError => JsonError 500
  end.


(* ================================================================== *)
(** ** Notions used in the statements *)

(** *** The language of a pattern *)

Inductive matches : regex -> pystr -> Prop :=
| matches_eps : matches Eps []
| matches_class p c : p c = true -> matches (Class p) [c]
| matches_seq r1 r2 s1 s2 :
    matches r1 s1 -> matches r2 s2 -> matches (Seq r1 r2) (s1 ++ s2)
| matches_alt_l r1 r2 s : matches r1 s -> matches (Alt r1 r2) s
| matches_alt_r r1 r2 s : matches r2 s -> matches (Alt r1 r2) s
| matches_star_nil r : matches (Star r) []
| matches_star_app r s1 s2 :
    matches r s1 -> matches (Star r) s2 -> matches (Star r) (s1 ++ s2).

(** *** Ordered rules, as the specification words them *)

(** A rule is a test that must pass and the reason reported when it does
    not.  The reason of the first rule of the list that does not pass, if
    there is one. *)
Fixpoint first_failing_rule (rules : list ((pystr -> bool) * string))
    (s : pystr) : option string :=
  match rules with
  | [] => None
  | (passes, reason) :: rest =>
      if passes s then first_failing_rule rest s else Some reason
  end.

(** The five password rules in the order of the specification: length at
    least 8, an uppercase letter, a lowercase letter, a digit, a special
    character. *)
Definition password_rules (unicode_decimal : N -> bool)
    : list ((pystr -> bool) * string) :=
  [ (fun s => (8 <=? len s)%nat, msg_password_length);
    (existsb (in_range "A" "Z"), msg_password_upper);
    (existsb (in_range "a" "z"), msg_password_lower);
    (existsb unicode_decimal, msg_password_digit);
    (existsb cls_special, msg_password_special) ].

(** The checks of a registration. *)
Inductive register_check : Type :=
| CheckPresence
| CheckUsername
| CheckEmail
| CheckPassword
| CheckConfirmation
| CheckUniqueness.

(** The order of the specification: presence, username syntax, email syntax,
    password strength, password confirmation, uniqueness. *)
Definition check_order : list register_check :=
  [CheckPresence; CheckUsername; CheckEmail; CheckPassword;
   CheckConfirmation; CheckUniqueness].

(** Whether a check, taken on its own, rejects the form. *)
Definition check_fails (unicode_decimal : N -> bool) (form : register_form)
    (st : db) (c : register_check) : bool :=
  let uname := strip (form_username form) in
  let mail := strip (form_email form) in
  match c with
  | CheckPresence =>
      py_not uname || py_not mail || py_not (form_password form)
  | CheckUsername => negb (fst (validate_username uname))
  | CheckEmail => negb (validate_email mail)
  | CheckPassword =>
      negb (fst (validate_password unicode_decimal (form_password form)))
  | CheckConfirmation =>
      negb (pystr_eqb (form_password form) (form_confirm_password form))
  | CheckUniqueness =>
      match find_user_or_email uname mail (users st) with
      | Some _ => true
      | None => false
      end
  end.

(** The error each check stands for. *)
Definition check_error (unicode_decimal : N -> bool) (form : register_form)
    (c : register_check) : register_result :=
  match c with
  | CheckPresence => RegisterRequired
  | CheckUsername =>
      RegisterBadUsername (snd (validate_username (strip (form_username form))))
  | CheckEmail => RegisterBadEmail
  | CheckPassword =>
      RegisterBadPassword
        (snd (validate_password unicode_decimal (form_password form)))
  | CheckConfirmation => RegisterMismatch
  | CheckUniqueness => RegisterExists
  end.

(** *** Sample data *)

Definition ascii_digit (c : N) : bool := in_range "0" "9" c.

(** Stand-ins for the two werkzeug functions in the examples: the digest is
    the salt followed by the password. *)
Definition sample_generate_password_hash (password salt : pystr) : pystr :=
  salt ++ password.

Definition sample_check_password_hash (pwhash password : pystr) : bool :=
  pystr_eqb pwhash (py "s4lt" ++ password).

Definition sample_register_env : register_env :=
  mkRegisterEnv ConnOk 1000 (py "s4lt").

(** A form that breaks the username, email, password and confirmation rules
    at once. *)
Definition sample_bad_form : register_form :=
  mkRegisterForm (py "ab") (py "invalid-email") (py "weak") (py "other").

(** *** Outcome kinds *)



(** *** Login calls and their environment *)

(** No connection block of the request raises. *)
Definition all_conns_ok (e : login_env) : Prop :=
  lock_conn e = ConnOk /\ lookup_conn e = ConnOk
  /\ update_conn e = ConnOk /\ log_conn e = ConnOk.

(** One POST to [login]. *)
Record login_call : Type := mkCall {
  call_env : login_env;
  call_username : pystr;
  call_password : pystr;
  call_addr : option pystr
}.




(** What a working [increment_failed_login] does to the row of an account. *)
Definition row_after_failure (now : Z) (a : user) : user :=
  if (5 <=? failed_login_attempts a + 1)%Z
  then set_locked_until (now + lockout_duration)%Z (set_failed_plus_one a)
  else set_failed_plus_one a.

Section Statements.

Variable check_password_hash : pystr -> pystr -> bool.
Variable generate_password_hash : pystr -> pystr -> pystr.
Variable unicode_decimal : N -> bool.

Definition do_login (c : login_call) (st : db) : login_result * db :=
  login check_password_hash (call_env c) POST
    (call_username c) (call_password c) (call_addr c) st.

(** Consecutive calls, with the result of each. *)
Fixpoint do_logins (cs : list login_call) (st : db) : list login_result * db :=
  match cs with
  | [] => ([], st)
  | c :: cs' =>
      let (r, st1) := do_login c st in
      let (rs, st2) := do_logins cs' st1 in
      (r :: rs, st2)
  end.


End Statements.

(** *** Sample accounts and calls *)

Definition sample_form : register_form :=
  mkRegisterForm (py "alice") (py "alice@example.com")
    (py "Abc12345!") (py "Abc12345!").

(** The database after alice has registered. *)
Definition sample_db : db :=
  snd (register sample_generate_password_hash ascii_digit
         sample_register_env POST sample_form init_db).

Definition sample_addr : pystr := py "1.2.3.4".

(** An environment without storage errors in which every clock reads [t]. *)
Definition sample_env (t : Z) : login_env :=
  mkLoginEnv ConnOk ConnOk ConnOk ConnOk t t t t.

(** The same, with the lock check raising. *)
Definition sample_env_lock_error (t : Z) : login_env :=
  mkLoginEnv ConnError ConnOk ConnOk ConnOk t t t t.

Definition wrong_call (t : Z) : login_call :=
  mkCall (sample_env t) (py "alice") (py "wrong") (Some sample_addr).

Definition right_call (t : Z) : login_call :=
  mkCall (sample_env t) (py " alice ") (py "Abc12345!") (Some sample_addr).

(** alice after five wrong passwords, the fifth at time 2004. *)
Definition sample_locked_db : db :=
  snd (do_logins sample_check_password_hash
         [wrong_call 2000; wrong_call 2001; wrong_call 2002;
          wrong_call 2003; wrong_call 2004] sample_db).

(** Requests served one after the other. *)
Definition serve (check_password_hash : pystr -> pystr -> bool)
    (generate_password_hash : pystr -> pystr -> pystr)
    (unicode_decimal : N -> bool) (rs : list request) (st : db) : db :=
  fold_left
    (fun s r => handle check_password_hash generate_password_hash
                  unicode_decimal r s)
    rs st.

(** The row of alice right after registration. *)
Definition sample_alice : user :=
  mkUser 1 (py "alice") (py "alice@example.com") (py "s4ltAbc12345!")
    1000 None 0 None.

(** The row of alice after the five wrong passwords. *)
Definition sample_alice_locked : user :=
  mkUser 1 (py "alice") (py "alice@example.com") (py "s4ltAbc12345!")
    1000 None 5 (Some (2004 + lockout_duration)%Z).

Definition request_of_call (c : login_call) : request :=
  Login (call_env c) POST (call_username c) (call_password c) (call_addr c).

(** alice registers and then submits five wrong passwords. *)
Definition sample_trace : list request :=
  Register sample_register_env POST sample_form
  :: map request_of_call
       [wrong_call 2000; wrong_call 2001; wrong_call 2002;
        wrong_call 2003; wrong_call 2004].


(** An environment in which only the update block raises. *)
Definition sample_env_update_error (t : Z) : login_env :=
  mkLoginEnv ConnOk ConnOk ConnError ConnOk t t t t.

(** alice after three wrong passwords. *)
Definition sample_three_failures_db : db :=
  snd (do_logins sample_check_password_hash
         [wrong_call 2000; wrong_call 2001; wrong_call 2002] sample_db).


(* ================================================================== *)
(** ** Further notions used in the statements *)

(** A string of the form local@domain.tld: a non-empty local part over
    [[a-zA-Z0-9._%+-]], a non-empty domain over [[a-zA-Z0-9.-]], and at least
    two letters after the last dot. *)
Definition email_shape (s : pystr) : Prop :=
  exists local domain tld,
    s = local ++ chr "@" :: domain ++ chr "." :: tld
    /\ local <> [] /\ forallb cls_email_local local = true
    /\ domain <> [] /\ forallb cls_email_domain domain = true
    /\ (2 <= len tld)%nat /\ forallb cls_alpha tld = true.

(** A string of 3 to 20 code points, all in [[a-zA-Z0-9_]]. *)
Definition username_shape (s : pystr) : Prop :=
  (3 <= len s <= 20)%nat /\ forallb cls_username s = true.

(** The columns of an account that identify it. *)
Definition identity (r : user) : Z * pystr * pystr * pystr * Z :=
  (user_id r, username r, email r, password_hash r, created_at r).

(** The ids 1, 2, ..., n. *)
Definition ids_upto (n : nat) : list Z := map Z.of_nat (seq 1 n).

(** The accounts table is well formed: usernames and emails are unique and
    of the validated shapes, and the ids count up from 1 in row order. *)
Definition accounts_wf (st : db) : Prop :=
  NoDup (map username (users st))
  /\ NoDup (map email (users st))
  /\ map user_id (users st) = ids_upto (List.length (users st))
  /\ users_seq st = Z.of_nat (List.length (users st))
  /\ Forall username_shape (map username (users st))
  /\ Forall email_shape (map email (users st)).

(** The counter is not negative, and the lock is set exactly when the
    counter has reached 5. *)
Definition lock_state_ok (r : user) : Prop :=
  (0 <= failed_login_attempts r)%Z
  /\ (account_locked_until r = None <-> (failed_login_attempts r < 5)%Z).

Definition site_wf (st : db) : Prop :=
  accounts_wf st /\ Forall lock_state_ok (users st).

(** A request that is not a login for the username [u]. *)
Definition not_login_for (u : pystr) (r : request) : Prop :=
  match r with
  | Register _ _ _ => True
  | Login _ _ fu _ _ => strip fu <> u
  end.

(** The rows a POST to [login] with an address adds to the log when its log
    block works: one for a locked, invalid or successful answer, none
    otherwise. *)
Definition logged_attempt (e : login_env) (fu ip : pystr) (r : login_result)
    (st : db) : list login_attempt :=
  match r with
  | LoginLocked | LoginInvalid =>
      [mkAttempt (login_attempts_seq st + 1)%Z (strip fu) ip false (log_now e)]
  | LoginSuccess _ _ =>
      [mkAttempt (login_attempts_seq st + 1)%Z (strip fu) ip true (log_now e)]
  | LoginPage | LoginRequired | LoginFailed => []
  end.

(** *** Answers of the attempts query *)

(** Rows listed newest first. *)
Definition newest_first (rows : list login_attempt) : Prop :=
  StronglySorted
    (fun a b => (attempt_timestamp b <= attempt_timestamp a)%Z) rows.

(** What [SELECT * FROM login_attempts WHERE username = ? ORDER BY timestamp
    DESC LIMIT 10] may return: the first ten rows of some listing of the
    matching rows newest first. *)
Definition query_answer (uname : pystr) (st : db)
    (rows : list login_attempt) : Prop :=
  exists sorted,
    Permutation sorted (attempts_of uname st)
    /\ newest_first sorted
    /\ rows = firstn 10 sorted.

(** *** Browsing *)

(** A session that holds a user id holds the id and the username of one
    account of the database. *)
Definition session_ok (w : db * session) : Prop :=
  match session_user_id (snd w) with
  | None => True
  | Some uid =>
      exists a, In a (users (fst w)) /\ user_id a = uid
                /\ session_username (snd w) = Some (username a)
  end.

(** What one browser does: a request to [register] or [login], a visit of
    the dashboard, a logout. *)
Inductive visit : Type :=
| VisitRequest (r : request)
| VisitDashboard
| VisitLogout.

Section Browsing.

Variable check_password_hash : pystr -> pystr -> bool.
Variable generate_password_hash : pystr -> pystr -> pystr.
Variable unicode_decimal : N -> bool.

(** The database and the browser's session after a visit. *)
Definition visit_step (v : visit) (w : db * session) : db * session :=
  match v with
  | VisitRequest (Login e m fu p ip) =>
      let (r, st') := login check_password_hash e m fu p ip (fst w) in
      (st', login_session r (snd w))
  | VisitRequest (Register e m form) =>
      (snd (register generate_password_hash unicode_decimal e m form (fst w)),
       snd w)
  | VisitDashboard => w
  | VisitLogout => (fst w, snd (logout (snd w)))
  end.

Definition browse (vs : list visit) (w : db * session) : db * session :=
  fold_left (fun w' v => visit_step v w') vs w.

(** The request is a registration that is answered with success. *)
Definition registers (r : request) (st : db) : bool :=
  match r with
  | Register e m form =>
      match fst (register generate_password_hash unicode_decimal e m form st)
      with
      | RegisterSuccess => true
      | _ => false
      end
  | Login _ _ _ _ _ => false
  end.

End Browsing.

(** *** More sample data *)

(** A valid form that reuses the username of alice under another email. *)
Definition sample_dup_form : register_form :=
  mkRegisterForm (py " alice") (py "other@example.com")
    (py "Xyz98765?") (py "Xyz98765?").

Definition sample_ghost_request : request :=
  Login (sample_env 3000) POST (py "ghost") (py "wrong") (Some sample_addr).


(* ================================================================== *)
(** ** Strings and patterns *)

Lemma pystr_eqb_eq (a b : pystr) : pystr_eqb a b = true <-> a = b.
Proof.
  unfold pystr_eqb. destruct (pystr_eq_dec a b); split; congruence.
Qed.

Lemma pystr_eqb_neq (a b : pystr) : pystr_eqb a b = false <-> a <> b.
Proof.
  unfold pystr_eqb. destruct (pystr_eq_dec a b); split; congruence.
Qed.

Lemma pystr_eqb_refl (a : pystr) : pystr_eqb a a = true.
Proof. now apply pystr_eqb_eq. Qed.

Lemma py_not_true (s : pystr) : py_not s = true <-> s = [].
Proof. destruct s; simpl; split; congruence. Qed.

Lemma py_not_false (s : pystr) : py_not s = false <-> s <> [].
Proof. destruct s; simpl; split; congruence. Qed.

Lemma nullable_matches (r : regex) : nullable r = true <-> matches r [].
Proof.
  split.
  - induction r; simpl; intros H; try discriminate.
    + constructor.
    + apply andb_true_iff in H as [H1 H2].
      change (@nil N) with (@nil N ++ []). constructor; auto.
    + apply orb_true_iff in H as [H | H].
      * apply matches_alt_l; auto.
      * apply matches_alt_r; auto.
    + constructor.
  - intros H. remember [] as s eqn:Es. induction H; simpl; auto; try discriminate.
    + apply app_eq_nil in Es as [-> ->]. rewrite IHmatches1, IHmatches2; auto.
    + rewrite IHmatches; auto.
    + rewrite IHmatches, orb_true_r; auto.
Qed.

Lemma matches_star_cons_inv (r : regex) (c : N) (s : pystr) :
  matches (Star r) (c :: s) ->
  exists s1 s2, s = s1 ++ s2 /\ matches r (c :: s1) /\ matches (Star r) s2.
Proof.
  intros H. remember (Star r) as r' eqn:Er. remember (c :: s) as t eqn:Et.
  revert s Et. induction H; intros t Et; try discriminate.
  injection Er as ->.
  destruct s1 as [| d s1]; simpl in Et.
  - apply IHmatches2; auto.
  - injection Et as -> <-. exists s1, s2. auto.
Qed.

Lemma matches_seq_inv (r1 r2 : regex) (s : pystr) :
  matches (Seq r1 r2) s ->
  exists s1 s2, s = s1 ++ s2 /\ matches r1 s1 /\ matches r2 s2.
Proof. intros H. inversion H; subst. eauto. Qed.

Lemma matches_alt_inv (r1 r2 : regex) (s : pystr) :
  matches (Alt r1 r2) s -> matches r1 s \/ matches r2 s.
Proof. intros H. inversion H; subst; auto. Qed.

Lemma matches_cons_app (r1 r2 : regex) (c : N) (s1 s2 : pystr) :
  matches r1 (c :: s1) -> matches r2 s2 -> matches (Seq r1 r2) (c :: s1 ++ s2).
Proof.
  intros H1 H2. change (c :: s1 ++ s2) with ((c :: s1) ++ s2).
  now constructor.
Qed.

Lemma deriv_matches (c : N) (r : regex) (s : pystr) :
  matches (deriv c r) s <-> matches r (c :: s).
Proof.
  revert s. induction r; intros s; simpl.
  - split; intros H; inversion H.
  - split; intros H; inversion H.
  - destruct (p c) eqn:Ep; split; intros H; inversion H; subst.
    + now constructor.
    + constructor.
    + congruence.
  - destruct (nullable r1) eqn:En.
    + split; intros H.
      * apply matches_alt_inv in H as [H | H].
        -- apply matches_seq_inv in H as (s1 & s2 & -> & H1 & H2).
           apply matches_cons_app; auto. now apply IHr1.
        -- change (c :: s) with ([] ++ c :: s).
           constructor; [now apply nullable_matches | now apply IHr2].
      * apply matches_seq_inv in H as (s1 & s2 & E & H1 & H2).
        destruct s1 as [| d s1]; simpl in E.
        -- subst s2. apply matches_alt_r. now apply IHr2.
        -- injection E as <- ->. apply matches_alt_l.
           constructor; auto. now apply IHr1.
    + split; intros H.
      * apply matches_seq_inv in H as (s1 & s2 & -> & H1 & H2).
        apply matches_cons_app; auto. now apply IHr1.
      * apply matches_seq_inv in H as (s1 & s2 & E & H1 & H2).
        destruct s1 as [| d s1]; simpl in E.
        -- apply nullable_matches in H1. congruence.
        -- injection E as <- ->. constructor; auto. now apply IHr1.
  - split; intros H; apply matches_alt_inv in H as [H | H].
    + apply matches_alt_l. now apply IHr1.
    + apply matches_alt_r. now apply IHr2.
    + apply matches_alt_l. now apply IHr1.
    + apply matches_alt_r. now apply IHr2.
  - split; intros H.
    + apply matches_seq_inv in H as (s1 & s2 & -> & H1 & H2).
      change (c :: s1 ++ s2) with ((c :: s1) ++ s2).
      constructor; auto. now apply IHr.
    + apply matches_star_cons_inv in H as (s1 & s2 & -> & H1 & H2).
      constructor; auto. now apply IHr.
Qed.

(** The derivative matcher decides membership in the language. *)
Lemma fullmatch_matches (r : regex) (s : pystr) :
  fullmatch r s = true <-> matches r s.
Proof.
  unfold fullmatch. revert r. induction s as [| c s IH]; intros r; simpl.
  - apply nullable_matches.
  - rewrite IH. apply deriv_matches.
Qed.

Lemma matches_star_class (p : N -> bool) (s : pystr) :
  matches (Star (Class p)) s <-> forallb p s = true.
Proof.
  split.
  - intros H. remember (Star (Class p)) as r eqn:Er.
    induction H; try discriminate; auto.
    injection Er as ->. inversion H as [| ? ? Hc | | | | |]; subst. simpl.
    rewrite IHmatches2 by reflexivity. now rewrite Hc.
  - induction s as [| c s IH]; simpl; intros H.
    + constructor.
    + apply andb_true_iff in H as [Hc Hs].
      change (c :: s) with ([c] ++ s).
      constructor; [now constructor | auto].
Qed.

Lemma matches_plus_class (p : N -> bool) (s : pystr) :
  matches (Plus (Class p)) s <-> s <> [] /\ forallb p s = true.
Proof.
  unfold Plus. split.
  - intros H. apply matches_seq_inv in H as (s1 & s2 & -> & H1 & H2).
    inversion H1 as [| ? ? Hc | | | | |]; subst.
    apply matches_star_class in H2. simpl.
    split; [discriminate | now rewrite Hc].
  - intros [Hne H]. destruct s as [| c s]; [congruence |].
    simpl in H. apply andb_true_iff in H as [Hc Hs].
    change (c :: s) with ([c] ++ s).
    constructor; [now constructor | now apply matches_star_class].
Qed.

Lemma fullmatch_plus_class (p : N -> bool) (s : pystr) :
  fullmatch (Plus (Class p)) s = negb (py_not s) && forallb p s.
Proof.
  apply eq_true_iff_eq.
  rewrite fullmatch_matches, matches_plus_class, andb_true_iff, negb_true_iff.
  now rewrite py_not_false.
Qed.

Lemma chop_newline_Some (s s' : pystr) :
  chop_newline s = Some s' <-> s = s' ++ [10%N].
Proof.
  unfold chop_newline. split.
  - intros H. destruct (rev s) as [| c t] eqn:Er; [discriminate |].
    assert (Es : s = rev t ++ [c]).
    { rewrite <- (rev_involutive s), Er. reflexivity. }
    destruct c as [| q]; [discriminate |].
    do 4 (destruct q as [q | q |]; try discriminate).
    injection H as <-. exact Es.
  - intros ->. rewrite rev_app_distr. simpl. now rewrite rev_involutive.
Qed.

Lemma chop_newline_None (s : pystr) :
  chop_newline s = None <-> forall s', s <> s' ++ [10%N].
Proof.
  split.
  - intros H s' E. apply chop_newline_Some in E. congruence.
  - intros H. destruct (chop_newline s) as [s' |] eqn:E; auto.
    apply chop_newline_Some in E. now apply H in E.
Qed.

(* ================================================================== *)
(** ** Validators *)

Section ValidatorProperties.

Variable unicode_decimal : N -> bool.

(** C5.  [validate_password] applies the five rules in the order length,
    uppercase, lowercase, digit, special character and reports the reason of
    the first one that fails; a password shorter than 8 always gets the
    length reason, and a password passing all five gets the valid message. *)
Theorem validate_password_first_failing_rule (s : pystr) :
  validate_password unicode_decimal s =
    match first_failing_rule (password_rules unicode_decimal) s with
    | Some reason => (false, reason)
    | None => (true, msg_password_valid)
    end
  /\ ((len s < 8)%nat ->
      validate_password unicode_decimal s = (false, msg_password_length))
  /\ (forallb (fun rule => fst rule s) (password_rules unicode_decimal) = true ->
      validate_password unicode_decimal s = (true, msg_password_valid)).
Proof.
  assert (E : (8 <=? len s)%nat = negb (len s <? 8)%nat).
  { destruct (Nat.ltb_spec (len s) 8), (Nat.leb_spec 8 (len s));
      simpl; auto; lia. }
  unfold validate_password, re_search_class, password_rules.
  cbn [first_failing_rule forallb fst]. rewrite E.
  repeat split.
  - destruct (len s <? 8)%nat; cbn [negb]; auto.
    destruct (existsb (in_range "A" "Z") s); cbn [negb]; auto.
    destruct (existsb (in_range "a" "z") s); cbn [negb]; auto.
    destruct (existsb unicode_decimal s); cbn [negb]; auto.
    destruct (existsb cls_special s); cbn [negb]; auto.
  - intros H. apply Nat.ltb_lt in H. now rewrite H.
  - intros H. repeat (apply andb_true_iff in H as [? H]).
    apply negb_true_iff in H0. rewrite H0. cbn [negb].
    now rewrite H1, H2, H3, H4.
Qed.

End ValidatorProperties.

(** C5, on inputs: a short password that also lacks an uppercase letter, a
    digit and a special character gets the length reason. *)
Lemma validate_password_first_failing_rule_witness :
  validate_password ascii_digit (py "short") = (false, msg_password_length)
  /\ validate_password ascii_digit (py "Pass123!") = (true, msg_password_valid).
Proof.
  split.
  - apply (validate_password_first_failing_rule ascii_digit (py "short")).
    vm_compute. lia.
  - apply (validate_password_first_failing_rule ascii_digit (py "Pass123!")).
    vm_compute. reflexivity.
Defined.

(** What [validate_username] accepts: between 3 and 20 code points, all of
    them in [[a-zA-Z0-9_]] except that the last one may be a line feed. *)
Lemma validate_username_accepts_iff (s : pystr) :
  fst (validate_username s) = true <->
  (3 <= len s <= 20)%nat
  /\ (forallb cls_username s = true
      \/ exists s', s = s' ++ [10%N] /\ forallb cls_username s' = true).
Proof.
  unfold validate_username, re_match_bol_eol, username_pattern.
  destruct (len s <? 3)%nat eqn:E3; simpl.
  { apply Nat.ltb_lt in E3. split; [discriminate | lia]. }
  destruct (20 <? len s)%nat eqn:E20; simpl.
  { apply Nat.ltb_lt in E20. split; [discriminate | lia]. }
  apply Nat.ltb_ge in E3, E20.
  rewrite fullmatch_plus_class.
  assert (Hs : py_not s = false).
  { destruct s; simpl in *; [lia | reflexivity]. }
  rewrite Hs. simpl.
  destruct (forallb cls_username s) eqn:Hall; simpl.
  { split; auto. }
  destruct (chop_newline s) as [s' |] eqn:Ec.
  - apply chop_newline_Some in Ec. subst s.
    rewrite fullmatch_plus_class.
    assert (Hs' : py_not s' = false).
    { destruct s'; simpl in *; [lia | reflexivity]. }
    rewrite Hs'. simpl.
    destruct (forallb cls_username s') eqn:Hall'; simpl.
    + split; auto. intros _. split; [lia |]. right. now exists s'.
    + split; [discriminate |]. intros [_ [H | (t & E & H)]]; [discriminate |].
      apply app_inj_tail in E as [-> _]. congruence.
  - simpl. split; [discriminate |].
    intros [_ [H | (t & E & H)]]; [discriminate |].
    rewrite chop_newline_None in Ec. now apply Ec in E.
Qed.

(** A length outside [3,20] is reported with the length message. *)
Lemma validate_username_length (s : pystr) :
  (len s < 3 \/ 20 < len s)%nat ->
  validate_username s = (false, msg_username_length).
Proof.
  intros H. unfold validate_username.
  destruct (len s <? 3)%nat eqn:E3; simpl; auto.
  destruct (20 <? len s)%nat eqn:E20; simpl; auto.
  apply Nat.ltb_ge in E3, E20. lia.
Qed.

(** The two reasons of [validate_username] are different messages. *)
Lemma validate_username_reasons_differ :
  msg_username_length <> msg_username_charset.
Proof. discriminate. Qed.

(** A string of 3 to 20 code points with a code point outside
    [[a-zA-Z0-9_]] before its last position is reported with the
    character-set message. *)
Lemma validate_username_charset (s t : pystr) (c d : N) :
  (3 <= len (s ++ c :: t ++ [d]) <= 20)%nat ->
  cls_username c = false ->
  validate_username (s ++ c :: t ++ [d]) = (false, msg_username_charset).
Proof.
  intros Hlen Hc.
  assert (Hno : fst (validate_username (s ++ c :: t ++ [d])) = false).
  { apply not_true_is_false. rewrite validate_username_accepts_iff.
    intros [_ [H | (s' & E & H)]].
    - rewrite forallb_app in H. simpl in H. rewrite Hc in H.
      now rewrite andb_false_r in H.
    - change (s ++ c :: t ++ [d]) with (s ++ (c :: t) ++ [d]) in E.
      rewrite app_assoc in E. apply app_inj_tail in E as [<- _].
      rewrite forallb_app in H. simpl in H. rewrite Hc in H.
      now rewrite andb_false_r in H. }
  revert Hno. unfold validate_username.
  destruct (len (s ++ c :: t ++ [d]) <? 3)%nat eqn:E3; simpl.
  { apply Nat.ltb_lt in E3. lia. }
  destruct (20 <? len (s ++ c :: t ++ [d]))%nat eqn:E20; simpl.
  { apply Nat.ltb_lt in E20. lia. }
  destruct (re_match_bol_eol username_pattern (s ++ c :: t ++ [d])); simpl;
    [discriminate | reflexivity].
Qed.

(** C6.  [validate_username] accepts the four code points a, b, c, line feed:
    the length is in range and [$] matches before the final line feed, so a
    string with a character outside [[a-zA-Z0-9_]] passes as valid. *)
Theorem validate_username_trailing_newline :
  validate_username (py "abc" ++ [10%N]) = (true, msg_username_valid)
  /\ len (py "abc" ++ [10%N]) = 4%nat
  /\ existsb (fun c => negb (cls_username c)) (py "abc" ++ [10%N]) = true.
Proof. vm_compute. auto. Qed.

(* ================================================================== *)
(** ** Registration *)

Section RegisterProperties.

Variable generate_password_hash : pystr -> pystr -> pystr.
Variable unicode_decimal : N -> bool.

(** C7.  [register] answers with the error of the first check, in the order
    presence, username syntax, email syntax, password strength, password
    confirmation, uniqueness, that rejects the form, and leaves the database
    as it was.  For the five checks before uniqueness this holds whatever
    the database contains and even when its connection raises: the later
    checks, the query among them, are not consulted. *)
Theorem register_first_failing_check (e : register_env) (form : register_form)
    (st : db) (c : register_check) :
  find (check_fails unicode_decimal form st) check_order = Some c ->
  (c = CheckUniqueness -> register_conn e = ConnOk) ->
  register generate_password_hash unicode_decimal e POST form st =
    (check_error unicode_decimal form c, st).
Proof.
  unfold register, check_order, check_error.
  cbn [find check_fails].
  destruct (py_not (strip (form_username form))
            || py_not (strip (form_email form))
            || py_not (form_password form)).
  { intros [= <-] _. reflexivity. }
  destruct (validate_username (strip (form_username form))) as [uv um].
  cbn [fst snd]. destruct (negb uv).
  { intros [= <-] _. reflexivity. }
  destruct (negb (validate_email (strip (form_email form)))).
  { intros [= <-] _. reflexivity. }
  destruct (validate_password unicode_decimal (form_password form)) as [pv pm].
  cbn [fst snd]. destruct (negb pv).
  { intros [= <-] _. reflexivity. }
  destruct (negb (pystr_eqb (form_password form) (form_confirm_password form))).
  { intros [= <-] _. reflexivity. }
  destruct (find_user_or_email _ _ _); [| discriminate].
  intros [= <-] Hc. now rewrite Hc.
Qed.

(** When no check rejects the form and the connection works, the account is
    inserted with a zero counter and no lock. *)
Lemma register_success (e : register_env) (form : register_form) (st : db) :
  find (check_fails unicode_decimal form st) check_order = None ->
  register_conn e = ConnOk ->
  register generate_password_hash unicode_decimal e POST form st =
    (RegisterSuccess,
     insert_user (register_now e) (strip (form_username form))
       (strip (form_email form))
       (generate_password_hash (form_password form) (register_salt e)) st).
Proof.
  unfold register, check_order.
  cbn [find check_fails].
  destruct (py_not (strip (form_username form))
            || py_not (strip (form_email form))
            || py_not (form_password form)); [discriminate |].
  destruct (validate_username (strip (form_username form))) as [uv um].
  cbn [fst snd]. destruct (negb uv); [discriminate |].
  destruct (negb (validate_email (strip (form_email form)))); [discriminate |].
  destruct (validate_password unicode_decimal (form_password form)) as [pv pm].
  cbn [fst snd]. destruct (negb pv); [discriminate |].
  destruct (negb (pystr_eqb (form_password form) (form_confirm_password form)));
    [discriminate |].
  destruct (find_user_or_email _ _ _); [discriminate |].
  intros _ ->. reflexivity.
Qed.

End RegisterProperties.

(** C7, on inputs: a form whose username, email, password and confirmation
    are all wrong is answered with the username error, here with a
    connection that would raise. *)
Lemma register_first_failing_check_witness :
  register sample_generate_password_hash ascii_digit
    (mkRegisterEnv ConnError 1000 (py "s4lt")) POST sample_bad_form init_db =
    (RegisterBadUsername msg_username_length, init_db).
Proof.
  apply (register_first_failing_check sample_generate_password_hash ascii_digit
           (mkRegisterEnv ConnError 1000 (py "s4lt")) sample_bad_form init_db
           CheckUsername).
  - vm_compute. reflexivity.
  - discriminate.
Defined.

(* ================================================================== *)
(** ** Rows and queries *)

Local Open Scope Z_scope.

Lemma find_user_name (u : pystr) (rows : list user) (a : user) :
  find_user u rows = Some a -> username a = u.
Proof.
  unfold find_user. intros H. apply find_some in H as [_ H].
  now apply pystr_eqb_eq.
Qed.

Lemma find_user_In (u : pystr) (rows : list user) (a : user) :
  find_user u rows = Some a -> In a rows.
Proof. unfold find_user. intros H. now apply find_some in H. Qed.

Lemma find_user_None (u : pystr) (rows : list user) :
  find_user u rows = None <-> forall r, In r rows -> username r <> u.
Proof.
  unfold find_user. split.
  - intros H r Hr E. apply (find_none _ _ H) in Hr.
    apply pystr_eqb_neq in Hr. congruence.
  - intros H. destruct (find _ rows) as [a |] eqn:E; auto.
    apply find_some in E as [Ha E]. apply pystr_eqb_eq in E.
    now apply H in Ha.
Qed.

(** With unique usernames the row a query returns is the only one of that
    name. *)
Lemma find_user_unique (u : pystr) (rows : list user) (a r : user) :
  NoDup (map username rows) ->
  find_user u rows = Some a -> In r rows -> username r = u -> r = a.
Proof.
  unfold find_user. induction rows as [| x rows IH]; simpl; [tauto |].
  intros Hnd Hf Hr Hu. inversion Hnd as [| ? ? Hx Hnd']; subst.
  destruct (pystr_eqb (username x) (username r)) eqn:E.
  - injection Hf as <-. destruct Hr as [-> | Hr]; auto.
    apply pystr_eqb_eq in E. exfalso. apply Hx. rewrite E.
    now apply in_map.
  - destruct Hr as [-> | Hr].
    + now rewrite pystr_eqb_refl in E.
    + now apply IH.
Qed.

Section Updates.

Variable f : user -> user.
Hypothesis f_name : forall r, username (f r) = username r.


Lemma find_user_update_same (u : pystr) (rows : list user) :
  find_user u (update_users u f rows) = option_map f (find_user u rows).
Proof.
  unfold find_user, update_users.
  induction rows as [| x rows IH]; simpl; auto.
  destruct (pystr_eqb (username x) u) eqn:E.
  - now rewrite f_name, E.
  - now rewrite E.
Qed.

Lemma find_user_update_other (u v : pystr) (rows : list user) :
  u <> v -> find_user v (update_users u f rows) = find_user v rows.
Proof.
  intros Huv. unfold find_user, update_users.
  induction rows as [| x rows IH]; simpl; auto.
  destruct (pystr_eqb (username x) u) eqn:E.
  - rewrite f_name. apply pystr_eqb_eq in E.
    assert (Ev : pystr_eqb (username x) v = false).
    { apply pystr_eqb_neq. congruence. }
    now rewrite Ev.
  - now rewrite IH.
Qed.

Lemma update_users_In (u : pystr) (rows : list user) (r' : user) :
  In r' (update_users u f rows) ->
  exists r, In r rows
            /\ (username r = u /\ r' = f r \/ username r <> u /\ r' = r).
Proof.
  unfold update_users. intros H. apply in_map_iff in H as (r & E & Hr).
  exists r. split; auto.
  destruct (pystr_eqb (username r) u) eqn:Eu.
  - apply pystr_eqb_eq in Eu. auto.
  - apply pystr_eqb_neq in Eu. auto.
Qed.

End Updates.

Lemma update_users_absent (u : pystr) (g : user -> user) (rows : list user) :
  find_user u rows = None -> update_users u g rows = rows.
Proof.
  rewrite find_user_None. unfold update_users.
  induction rows as [| x rows IH]; simpl; intros H; auto.
  assert (E : pystr_eqb (username x) u = false).
  { apply pystr_eqb_neq. apply H. now left. }
  rewrite E, IH; [reflexivity |]. intros r Hr. apply H. now right.
Qed.

Lemma update_users_compose (u : pystr) (g h : user -> user) (rows : list user) :
  (forall r, username (g r) = username r) ->
  update_users u h (update_users u g rows)
  = update_users u (fun r => h (g r)) rows.
Proof.
  intros Hg. unfold update_users. rewrite map_map. apply map_ext.
  intros r. destruct (pystr_eqb (username r) u) eqn:E.
  - now rewrite Hg, E.
  - now rewrite E.
Qed.

Lemma find_user_app (u : pystr) (rows more : list user) (a : user) :
  find_user u rows = Some a -> find_user u (rows ++ more) = Some a.
Proof.
  unfold find_user. induction rows as [| x rows IH]; simpl; [discriminate |].
  destruct (pystr_eqb (username x) u); auto.
Qed.

(* ================================================================== *)
(** ** The lock check *)

Lemma is_account_locked_error (now : Z) (u : pystr) (st : db) :
  is_account_locked ConnError now u st = (false, st).
Proof. reflexivity. Qed.

Lemma is_account_locked_absent (c : conn) (now : Z) (u : pystr) (st : db) :
  find_user u (users st) = None -> is_account_locked c now u st = (false, st).
Proof. intros H. destruct c; simpl; auto. now rewrite H. Qed.

Lemma is_account_locked_unlocked (c : conn) (now : Z) (u : pystr) (st : db)
    (a : user) :
  find_user u (users st) = Some a -> account_locked_until a = None ->
  is_account_locked c now u st = (false, st).
Proof. intros H Hl. destruct c; simpl; auto. now rewrite H, Hl. Qed.

Lemma is_account_locked_active (now : Z) (u : pystr) (st : db) (a : user)
    (l : Z) :
  find_user u (users st) = Some a -> account_locked_until a = Some l ->
  now < l -> is_account_locked ConnOk now u st = (true, st).
Proof.
  intros H Hl Hlt. simpl. rewrite H, Hl.
  apply Z.ltb_lt in Hlt. now rewrite Hlt.
Qed.

Lemma is_account_locked_expired (now : Z) (u : pystr) (st : db) (a : user)
    (l : Z) :
  find_user u (users st) = Some a -> account_locked_until a = Some l ->
  l <= now ->
  is_account_locked ConnOk now u st
  = (false, set_users st (update_users u set_unlocked (users st))).
Proof.
  intros H Hl Hle. simpl. rewrite H, Hl.
  apply Z.ltb_ge in Hle. now rewrite Hle.
Qed.


(* ================================================================== *)
(** ** The paths through [login] *)

Lemma users_log_login_attempt (c : conn) (now : Z) (u : pystr)
    (ip : option pystr) (ok : bool) (st : db) :
  users (log_login_attempt c now u ip ok st) = users st.
Proof. destruct c, ip; reflexivity. Qed.

Lemma users_reset_failed_login (now : Z) (u : pystr) (st : db) :
  users (reset_failed_login ConnOk now u st)
  = update_users u (set_login_success now) (users st).
Proof. reflexivity. Qed.

Lemma set_users_same (st : db) : set_users st (users st) = st.
Proof. now destruct st. Qed.

Lemma increment_failed_login_absent (c : conn) (now : Z) (u : pystr) (st : db) :
  find_user u (users st) = None ->
  increment_failed_login c now u st = st.
Proof.
  intros H. destruct c; simpl; auto.
  rewrite (update_users_absent u _ _ H), H. apply set_users_same.
Qed.

Lemma increment_failed_login_users (now : Z) (u : pystr) (st : db) (a : user) :
  find_user u (users st) = Some a ->
  users (increment_failed_login ConnOk now u st)
  = if 5 <=? failed_login_attempts a + 1
    then update_users u
           (fun r => set_locked_until (now + lockout_duration)
                       (set_failed_plus_one r)) (users st)
    else update_users u set_failed_plus_one (users st).
Proof.
  intros H. unfold increment_failed_login.
  rewrite find_user_update_same by reflexivity. rewrite H. simpl.
  destruct (5 <=? failed_login_attempts a + 1); simpl; auto.
  now rewrite update_users_compose.
Qed.

Lemma increment_failed_login_found (now : Z) (u : pystr) (st : db) (a : user) :
  find_user u (users st) = Some a ->
  find_user u (users (increment_failed_login ConnOk now u st))
  = Some (row_after_failure now a).
Proof.
  intros H. rewrite (increment_failed_login_users _ _ _ _ H).
  unfold row_after_failure.
  destruct (5 <=? failed_login_attempts a + 1);
    rewrite find_user_update_same by reflexivity; now rewrite H.
Qed.

Section LoginProperties.

Variable check_password_hash : pystr -> pystr -> bool.


Ltac enter_post Hu Hp :=
  unfold login;
  rewrite (proj2 (py_not_false _) Hu), (proj2 (py_not_false _) Hp);
  cbn [orb].


Lemma login_locked (e : login_env) (fu p : pystr) (ip : option pystr)
    (st st1 : db) :
  strip fu <> [] -> p <> [] ->
  is_account_locked (lock_conn e) (lock_now e) (strip fu) st = (true, st1) ->
  login check_password_hash e POST fu p ip st
  = (LoginLocked,
     log_login_attempt (log_conn e) (log_now e) (strip fu) ip false st1).
Proof. intros Hu Hp H. enter_post Hu Hp. now rewrite H. Qed.

Lemma login_lookup_error (e : login_env) (fu p : pystr) (ip : option pystr)
    (st st1 : db) :
  strip fu <> [] -> p <> [] ->
  is_account_locked (lock_conn e) (lock_now e) (strip fu) st = (false, st1) ->
  lookup_conn e = ConnError ->
  login check_password_hash e POST fu p ip st = (LoginFailed, st1).
Proof. intros Hu Hp H Hc. enter_post Hu Hp. now rewrite H, Hc. Qed.

Lemma login_success (e : login_env) (fu p : pystr) (ip : option pystr)
    (st st1 : db) (a : user) :
  strip fu <> [] -> p <> [] ->
  is_account_locked (lock_conn e) (lock_now e) (strip fu) st = (false, st1) ->
  lookup_conn e = ConnOk ->
  find_user (strip fu) (users st1) = Some a ->
  check_password_hash (password_hash a) p = true ->
  login check_password_hash e POST fu p ip st
  = (LoginSuccess (user_id a) (username a),
     log_login_attempt (log_conn e) (log_now e) (strip fu) ip true
       (reset_failed_login (update_conn e) (stamp_now e) (strip fu) st1)).
Proof.
  intros Hu Hp H Hc Ha Hchk. enter_post Hu Hp. now rewrite H, Hc, Ha, Hchk.
Qed.

Lemma login_wrong_password (e : login_env) (fu p : pystr) (ip : option pystr)
    (st st1 : db) (a : user) :
  strip fu <> [] -> p <> [] ->
  is_account_locked (lock_conn e) (lock_now e) (strip fu) st = (false, st1) ->
  lookup_conn e = ConnOk ->
  find_user (strip fu) (users st1) = Some a ->
  check_password_hash (password_hash a) p = false ->
  login check_password_hash e POST fu p ip st
  = (LoginInvalid,
     log_login_attempt (log_conn e) (log_now e) (strip fu) ip false
       (increment_failed_login (update_conn e) (fail_now e) (strip fu) st1)).
Proof.
  intros Hu Hp H Hc Ha Hchk. enter_post Hu Hp. now rewrite H, Hc, Ha, Hchk.
Qed.

Lemma login_unknown (e : login_env) (fu p : pystr) (ip : option pystr)
    (st st1 : db) :
  strip fu <> [] -> p <> [] ->
  is_account_locked (lock_conn e) (lock_now e) (strip fu) st = (false, st1) ->
  lookup_conn e = ConnOk ->
  find_user (strip fu) (users st1) = None ->
  login check_password_hash e POST fu p ip st
  = (LoginInvalid,
     log_login_attempt (log_conn e) (log_now e) (strip fu) ip false
       (increment_failed_login (update_conn e) (fail_now e) (strip fu) st1)).
Proof.
  intros Hu Hp H Hc Ha. enter_post Hu Hp. now rewrite H, Hc, Ha.
Qed.

(* ------------------------------------------------------------------ *)
(** *** Consecutive failures *)






(* ------------------------------------------------------------------ *)
(** *** Successful login *)

(** C2, as amended.  A login answered with success whose update block, that
    of [reset_failed_login], runs without error leaves the authenticated
    account with a zero failure counter, no lock and [last_login] stamped --
    whatever the counter and the lock were before, a zero counter and no lock
    included. *)
Theorem successful_login_resets_account (e : login_env) (m : http_method)
    (fu p : pystr) (ip : option pystr) (st st' : db) (uid : Z) (uname : pystr) :
  login check_password_hash e m fu p ip st = (LoginSuccess uid uname, st') ->
  update_conn e = ConnOk ->
  (exists a',
     find_user (strip fu) (users st') = Some a'
     /\ user_id a' = uid /\ username a' = uname /\ uname = strip fu
     /\ failed_login_attempts a' = 0
     /\ account_locked_until a' = None
     /\ last_login a' = Some (stamp_now e))
  /\ (forall r, In r (users st') -> username r = strip fu ->
        failed_login_attempts r = 0
        /\ account_locked_until r = None
        /\ last_login r = Some (stamp_now e)).
Proof.
  unfold login. destruct m; [discriminate |].
  destruct (py_not (strip fu) || py_not p); [discriminate |].
  destruct (is_account_locked _ _ _ _) as [locked st1].
  destruct locked; [discriminate |].
  destruct (lookup_conn e); [| discriminate].
  destruct (find_user (strip fu) (users st1)) as [a |] eqn:Ha; [| discriminate].
  destruct (check_password_hash (password_hash a) p); [| discriminate].
  intros [= <- <- <-] Hupd.
  rewrite users_log_login_attempt, Hupd, users_reset_failed_login.
  split.
  - exists (set_login_success (stamp_now e) a).
    rewrite find_user_update_same by reflexivity. rewrite Ha. simpl.
    repeat split; auto. now apply find_user_name in Ha.
  - intros r Hr Hu.
    apply update_users_In in Hr as (r0 & _ & [[_ ->] | [Hne ->]]).
    + now simpl.
    + congruence.
Qed.

(* ------------------------------------------------------------------ *)
(** *** Unknown usernames *)



(** C8, as amended.  For a username that is non-empty once stripped and has
    no account, a non-empty password and an address, with the lookup and log
    blocks running without error: [login] answers invalid credentials,
    appends one failed attempt to the log and leaves the accounts as they
    were. *)
Theorem unknown_user_login_frame (e : login_env) (fu p ip : pystr) (st : db) :
  lookup_conn e = ConnOk ->
  log_conn e = ConnOk ->
  strip fu <> [] ->
  p <> [] ->
  find_user (strip fu) (users st) = None ->
  login check_password_hash e POST fu p (Some ip) st
  = (LoginInvalid,
     mkDb (users st) (users_seq st)
       (login_attempts st
        ++ [mkAttempt (login_attempts_seq st + 1) (strip fu) ip false
              (log_now e)])
       (login_attempts_seq st + 1)).
Proof.
  intros Hc Hlog Hu Hp Ha.
  rewrite (login_unknown _ _ _ _ st st); auto.
  - now rewrite increment_failed_login_absent, Hlog.
  - now apply is_account_locked_absent.
Qed.

(* ------------------------------------------------------------------ *)
(** *** Errors in the lock check *)

(** C9.  When the block of the lock check raises, [is_account_locked]
    answers false and changes nothing; an account whose lock is still in the
    future is then let through, and a login with its correct password is
    answered with success, where a working check answers true. *)
Theorem lock_check_fails_open (e : login_env) (fu p : pystr)
    (ip : option pystr) (st : db) (a : user) (l : Z) :
  lock_conn e = ConnError ->
  lookup_conn e = ConnOk ->
  strip fu <> [] ->
  p <> [] ->
  find_user (strip fu) (users st) = Some a ->
  account_locked_until a = Some l ->
  lock_now e < l ->
  check_password_hash (password_hash a) p = true ->
  is_account_locked (lock_conn e) (lock_now e) (strip fu) st = (false, st)
  /\ is_account_locked ConnOk (lock_now e) (strip fu) st = (true, st)
  /\ fst (login check_password_hash e POST fu p ip st)
     = LoginSuccess (user_id a) (username a).
Proof.
  intros Hlock Hc Hu Hp Ha Hl Hlt Hchk.
  assert (H : is_account_locked (lock_conn e) (lock_now e) (strip fu) st
              = (false, st)) by now rewrite Hlock.
  repeat split; auto.
  - now apply is_account_locked_active with a l.
  - now rewrite (login_success _ _ _ _ st st a).
Qed.

End LoginProperties.

(* ================================================================== *)
(** ** Frame properties of the handlers *)

Lemma find_user_is_account_locked_other (c : conn) (now : Z) (u v : pystr)
    (st : db) :
  v <> u ->
  find_user u (users (snd (is_account_locked c now v st)))
  = find_user u (users st).
Proof.
  intros Hvu. destruct c; simpl; auto.
  destruct (find_user v (users st)) as [a |]; auto.
  destruct (account_locked_until a) as [l |]; auto.
  destruct (now <? l); auto. simpl.
  now apply find_user_update_other.
Qed.

Lemma find_user_increment_other (c : conn) (now : Z) (u v : pystr) (st : db) :
  v <> u ->
  find_user u (users (increment_failed_login c now v st))
  = find_user u (users st).
Proof.
  intros Hvu. destruct c; auto.
  destruct (find_user v (users st)) as [a |] eqn:Ha.
  - rewrite (increment_failed_login_users _ _ _ _ Ha).
    destruct (5 <=? failed_login_attempts a + 1);
      now apply find_user_update_other.
  - now rewrite increment_failed_login_absent.
Qed.

Lemma find_user_reset_other (c : conn) (now : Z) (u v : pystr) (st : db) :
  v <> u ->
  find_user u (users (reset_failed_login c now v st))
  = find_user u (users st).
Proof.
  intros Hvu. destruct c; auto. simpl. now apply find_user_update_other.
Qed.

Section FrameProperties.

Variable check_password_hash : pystr -> pystr -> bool.
Variable generate_password_hash : pystr -> pystr -> pystr.
Variable unicode_decimal : N -> bool.

(** A login for one username leaves the rows of every other username. *)
Lemma find_user_login_other (e : login_env) (m : http_method) (fu p : pystr)
    (ip : option pystr) (st : db) (u : pystr) :
  strip fu <> u ->
  find_user u (users (snd (login check_password_hash e m fu p ip st)))
  = find_user u (users st).
Proof.
  intros Hne. unfold login. destruct m; auto.
  destruct (py_not (strip fu) || py_not p); auto.
  pose proof (find_user_is_account_locked_other
                (lock_conn e) (lock_now e) u (strip fu) st Hne) as H.
  destruct (is_account_locked _ _ _ _) as [locked st1]. simpl in H.
  destruct locked; simpl.
  { now rewrite users_log_login_attempt. }
  destruct (lookup_conn e); auto.
  destruct (find_user (strip fu) (users st1)) as [a |].
  - destruct (check_password_hash (password_hash a) p); simpl;
      rewrite users_log_login_attempt.
    + now rewrite find_user_reset_other.
    + now rewrite find_user_increment_other.
  - simpl. rewrite users_log_login_attempt.
    now rewrite find_user_increment_other.
Qed.


(** [register] only ever appends to [users]. *)
Lemma register_users (e : register_env) (m : http_method)
    (form : register_form) (st : db) :
  users (snd (register generate_password_hash unicode_decimal e m form st))
  = users st
  \/ (find_user_or_email (strip (form_username form))
        (strip (form_email form)) (users st) = None
      /\ exists id mail pwhash now,
           users (snd (register generate_password_hash unicode_decimal
                         e m form st))
           = users st
             ++ [mkUser id (strip (form_username form)) mail pwhash now
                   None 0 None]).
Proof.
  unfold register. destruct m; auto.
  destruct (_ || _); auto.
  destruct (validate_username _) as [uv um]. destruct (negb uv); auto.
  destruct (negb (validate_email _)); auto.
  destruct (validate_password _ _) as [pv pm]. destruct (negb pv); auto.
  destruct (negb (pystr_eqb _ _)); auto.
  destruct (register_conn e); auto.
  destruct (find_user_or_email _ _ _) eqn:E; auto.
  right. split; auto. simpl. eauto.
Qed.

(* ------------------------------------------------------------------ *)
(** *** The lazy unlock *)


(* ------------------------------------------------------------------ *)
(** *** The counter never passes the threshold *)









Lemma find_user_or_email_None (u m : pystr) (rows : list user) :
  find_user_or_email u m rows = None -> ~ In u (map username rows).
Proof.
  unfold find_user_or_email. intros H Hin.
  apply in_map_iff in Hin as (r & Hu & Hr).
  apply (find_none _ _ H) in Hr. apply orb_false_iff in Hr as [Hr _].
  apply pystr_eqb_neq in Hr. congruence.
Qed.





End FrameProperties.

(* ================================================================== *)
(** ** The properties on sample requests *)

Lemma sample_db_alice : find_user (py "alice") (users sample_db) = Some sample_alice.
Proof. vm_compute. reflexivity. Qed.

Lemma sample_locked_db_alice :
  find_user (py "alice") (users sample_locked_db) = Some sample_alice_locked.
Proof. vm_compute. reflexivity. Qed.




(** C2 as amended, on inputs: alice, with three failures counted, logs in at
    time 3000. *)
Lemma successful_login_resets_account_witness :
  exists a',
    find_user (py "alice")
      (users (snd (do_login sample_check_password_hash (right_call 3000)
                     sample_three_failures_db))) = Some a'
    /\ failed_login_attempts a' = 0
    /\ account_locked_until a' = None
    /\ last_login a' = Some 3000.
Proof.
  destruct (successful_login_resets_account sample_check_password_hash
              (sample_env 3000) POST (py " alice ") (py "Abc12345!")
              (Some sample_addr) sample_three_failures_db
              (snd (do_login sample_check_password_hash (right_call 3000)
                      sample_three_failures_db))
              1 (py "alice"))
    as [(a' & Ha' & _ & _ & _ & H1 & H2 & H3) _].
  - vm_compute. reflexivity.
  - reflexivity.
  - exists a'. auto.
Defined.

(** C2 as stated fails when the update block raises: alice, with three
    failures counted, submits the right password; [reset_failed_login]
    swallows the error, [login] still answers success, and her row keeps the
    counter 3 and has no [last_login]. *)
Lemma successful_login_without_reset_counterexample :
  fst (login sample_check_password_hash (sample_env_update_error 3000) POST
         (py "alice") (py "Abc12345!") (Some sample_addr)
         sample_three_failures_db)
  = LoginSuccess 1 (py "alice")
  /\ option_map failed_login_attempts
       (find_user (py "alice")
          (users (snd (login sample_check_password_hash
                         (sample_env_update_error 3000) POST
                         (py "alice") (py "Abc12345!") (Some sample_addr)
                         sample_three_failures_db))))
     = Some 3
  /\ option_map last_login
       (find_user (py "alice")
          (users (snd (login sample_check_password_hash
                         (sample_env_update_error 3000) POST
                         (py "alice") (py "Abc12345!") (Some sample_addr)
                         sample_three_failures_db))))
     = Some None.
Proof. repeat split; vm_compute; reflexivity. Qed.




(** C8 as stated fails on an empty password: the unknown ghost submits one,
    and [login] answers that both fields are required and logs nothing. *)
Lemma unknown_user_empty_password_counterexample :
  py "ghost" <> []
  /\ find_user (strip (py "ghost")) (users sample_db) = None
  /\ fst (login sample_check_password_hash (sample_env 3000) POST
            (py "ghost") [] (Some sample_addr) sample_db) = LoginRequired
  /\ ~ (exists attempt,
          login_attempts
            (snd (login sample_check_password_hash (sample_env 3000) POST
                    (py "ghost") [] (Some sample_addr) sample_db))
          = login_attempts sample_db ++ [attempt]).
Proof.
  repeat split; try (vm_compute; reflexivity || discriminate).
  intros [attempt H]. vm_compute in H. discriminate.
Qed.

(** C8 as amended, on inputs: the unknown ghost with a password. *)
Lemma unknown_user_login_frame_witness :
  login sample_check_password_hash (sample_env 3000) POST
    (py "ghost") (py "Abc12345!") (Some sample_addr) sample_db
  = (LoginInvalid,
     mkDb (users sample_db) (users_seq sample_db)
       (login_attempts sample_db
        ++ [mkAttempt (login_attempts_seq sample_db + 1) (strip (py "ghost"))
              sample_addr false 3000])
       (login_attempts_seq sample_db + 1)).
Proof.
  apply (unknown_user_login_frame sample_check_password_hash (sample_env 3000)
           (py "ghost") (py "Abc12345!") sample_addr sample_db).
  - reflexivity.
  - reflexivity.
  - vm_compute. discriminate.
  - discriminate.
  - vm_compute. reflexivity.
Defined.

(** C9, on inputs: alice, locked since her fifth failure at time 2004,
    submits the right password at time 2005 while the lock check raises. *)
Lemma lock_check_fails_open_witness :
  fst (login sample_check_password_hash (sample_env_lock_error 2005) POST
         (py "alice") (py "Abc12345!") (Some sample_addr) sample_locked_db)
  = LoginSuccess 1 (py "alice").
Proof.
  apply (lock_check_fails_open sample_check_password_hash
           (sample_env_lock_error 2005) (py "alice") (py "Abc12345!")
           (Some sample_addr) sample_locked_db sample_alice_locked
           (2004 + lockout_duration)).
  - reflexivity.
  - reflexivity.
  - vm_compute. discriminate.
  - discriminate.
  - vm_compute. reflexivity.
  - reflexivity.
  - vm_compute. reflexivity.
  - vm_compute. reflexivity.
Defined.



(** The bound of C10 needs the lock check to read without error: when it
    raises for the locked alice, a further wrong password is counted. *)
Lemma counter_passes_five_when_lock_check_raises :
  option_map failed_login_attempts
    (find_user (py "alice")
       (users (snd (login sample_check_password_hash
                      (sample_env_lock_error 2005) POST
                      (py "alice") (py "wrong") (Some sample_addr)
                      sample_locked_db))))
  = Some 6.
Proof. vm_compute. reflexivity. Qed.

(* ================================================================== *)
(** ** More on the validators *)

Local Open Scope Z_scope.

Lemma matches_class_inv (p : N -> bool) (s : pystr) :
  matches (Class p) s <-> exists c, s = [c] /\ p c = true.
Proof.
  split.
  - intros H. inversion H as [| ? c Hc | | | | |]; subst. eauto.
  - intros (c & -> & Hc). now constructor.
Qed.

Lemma matches_atleast2_class (p : N -> bool) (s : pystr) :
  matches (AtLeast2 (Class p)) s <-> (2 <= len s)%nat /\ forallb p s = true.
Proof.
  unfold AtLeast2. split.
  - intros H. apply matches_seq_inv in H as (s1 & s2 & -> & H1 & H2).
    apply matches_seq_inv in H2 as (s3 & s4 & -> & H3 & H4).
    apply matches_class_inv in H1 as (c & -> & Hc).
    apply matches_class_inv in H3 as (d & -> & Hd).
    apply matches_star_class in H4. simpl. rewrite Hc, Hd, H4.
    split; [lia | reflexivity].
  - intros [Hlen H]. destruct s as [| c [| d s]]; simpl in Hlen; try lia.
    simpl in H. apply andb_true_iff in H as [Hc H].
    apply andb_true_iff in H as [Hd H].
    change (c :: d :: s) with ([c] ++ [d] ++ s).
    repeat constructor; auto. now apply matches_star_class.
Qed.

Lemma is_char_true (a : ascii) (c : N) : is_char a c = true <-> c = chr a.
Proof. unfold is_char. apply N.eqb_eq. Qed.

(** The language of the pattern of [validate_email]. *)
Lemma matches_email_pattern (s : pystr) :
  matches email_pattern s <-> email_shape s.
Proof.
  unfold email_pattern, email_shape. split.
  - intros H.
    apply matches_seq_inv in H as (local & s1 & -> & Hl & H).
    apply matches_seq_inv in H as (at_ & s2 & -> & Hat & H).
    apply matches_seq_inv in H as (domain & s3 & -> & Hd & H).
    apply matches_seq_inv in H as (dot & tld & -> & Hdot & Ht).
    apply matches_plus_class in Hl as [Hl1 Hl2].
    apply matches_plus_class in Hd as [Hd1 Hd2].
    apply matches_class_inv in Hat as (c & -> & Hc).
    apply matches_class_inv in Hdot as (d & -> & Hd).
    apply is_char_true in Hc, Hd. subst c d.
    apply matches_atleast2_class in Ht as [Ht1 Ht2].
    exists local, domain, tld. simpl. repeat split; auto.
  - intros (local & domain & tld & -> & Hl1 & Hl2 & Hd1 & Hd2 & Ht1 & Ht2).
    constructor; [now apply matches_plus_class |].
    change (chr "@" :: domain ++ chr "." :: tld)
      with ([chr "@"] ++ domain ++ [chr "."] ++ tld).
    constructor; [constructor; now apply is_char_true |].
    constructor; [now apply matches_plus_class |].
    constructor; [constructor; now apply is_char_true |].
    now apply matches_atleast2_class.
Qed.

(** What [validate_email] accepts: a string of the shape local@domain.tld,
    possibly followed by one line feed. *)
Lemma validate_email_true (s : pystr) :
  validate_email s = true <->
  email_shape s \/ exists s', s = s' ++ [10%N] /\ email_shape s'.
Proof.
  unfold validate_email, re_match_bol_eol.
  rewrite orb_true_iff, fullmatch_matches, matches_email_pattern.
  split; intros [H | H]; auto.
  - destruct (chop_newline s) as [s' |] eqn:E; [| discriminate].
    apply chop_newline_Some in E.
    apply fullmatch_matches, matches_email_pattern in H. eauto.
  - destruct H as (s' & E & H). apply chop_newline_Some in E. rewrite E.
    right. now apply fullmatch_matches, matches_email_pattern.
Qed.

Lemma count_occ_forallb (p : N -> bool) (c : N) (s : pystr) :
  forallb p s = true -> p c = false -> count_occ N.eq_dec s c = 0%nat.
Proof.
  intros H Hc. induction s as [| d s IH]; simpl in *; auto.
  apply andb_true_iff in H as [Hd H].
  destruct (N.eq_dec d c) as [-> | _]; [congruence | auto].
Qed.

Lemma email_shape_one_at (s : pystr) :
  email_shape s -> count_occ N.eq_dec s (chr "@") = 1%nat.
Proof.
  intros (local & domain & tld & -> & _ & Hl & _ & Hd & _ & Ht).
  rewrite count_occ_app. simpl.
  rewrite count_occ_app. simpl.
  rewrite (count_occ_forallb _ _ _ Hl), (count_occ_forallb _ _ _ Hd),
    (count_occ_forallb _ _ _ Ht); reflexivity.
Qed.

(** X1.  [validate_email] accepts exactly the strings local@domain.tld --
    local part one or more of [[a-zA-Z0-9._%+-]], domain one or more of
    [[a-zA-Z0-9.-]] (so a dot or hyphen anywhere in it, doubled dots
    included), then a dot and two or more letters -- optionally followed by
    one line feed; an accepted string contains exactly one at sign. *)
Theorem validate_email_accepts (s : pystr) :
  (validate_email s = true <->
   email_shape s \/ exists s', s = s' ++ [10%N] /\ email_shape s')
  /\ (validate_email s = true -> count_occ N.eq_dec s (chr "@") = 1%nat).
Proof.
  split; [apply validate_email_true |].
  intros H. apply validate_email_true in H as [H | (s' & -> & H)].
  - now apply email_shape_one_at.
  - rewrite count_occ_app, (email_shape_one_at _ H). reflexivity.
Qed.

(** X1, on inputs: an address with two dots in a row in its domain. *)
Lemma validate_email_accepts_witness :
  count_occ N.eq_dec (py "user@example..com") (chr "@") = 1%nat.
Proof.
  apply (validate_email_accepts (py "user@example..com")).
  vm_compute. reflexivity.
Defined.

(** X2.  [validate_username] decides in this way: a length outside [3,20]
    gives the length message; otherwise a string all of whose code points
    are in [[a-zA-Z0-9_]], the last one possibly a line feed instead, is
    valid; every other string gets the character-set message. *)
Theorem validate_username_decides (s : pystr) :
  ((len s < 3 \/ 20 < len s)%nat ->
   validate_username s = (false, msg_username_length))
  /\ ((3 <= len s <= 20)%nat ->
      (forallb cls_username s = true
       \/ exists s', s = s' ++ [10%N] /\ forallb cls_username s' = true) ->
      validate_username s = (true, msg_username_valid))
  /\ ((3 <= len s <= 20)%nat ->
      ~ (forallb cls_username s = true
         \/ exists s', s = s' ++ [10%N] /\ forallb cls_username s' = true) ->
      validate_username s = (false, msg_username_charset)).
Proof.
  split; [apply validate_username_length |].
  pose proof (validate_username_accepts_iff s) as Hiff.
  unfold validate_username in *.
  destruct ((len s <? 3)%nat || (20 <? len s)%nat) eqn:E.
  { apply orb_true_iff in E as [E | E]; apply Nat.ltb_lt in E;
      split; intros; lia. }
  destruct (re_match_bol_eol username_pattern s); simpl in *.
  - split; auto. intros Hlen Hno. exfalso. apply Hno. now apply Hiff.
  - split; auto. intros Hlen Hyes.
    assert (false = true) by (apply Hiff; auto). discriminate.
Qed.

(** X2, on inputs: a username within the class, and one that is too short. *)
Lemma validate_username_decides_witness :
  validate_username (py "user_name_123") = (true, msg_username_valid)
  /\ validate_username (py "ab") = (false, msg_username_length).
Proof.
  split.
  - apply (validate_username_decides (py "user_name_123")).
    + vm_compute. lia.
    + left. vm_compute. reflexivity.
  - apply (validate_username_decides (py "ab")). left. vm_compute. lia.
Defined.

(* ================================================================== *)
(** ** Stripped input *)

Lemma lstrip_head (s t : pystr) (c : N) :
  lstrip s = c :: t -> isspace c = false.
Proof.
  induction s as [| d s IH]; simpl; [discriminate |].
  destruct (isspace d) eqn:E; auto. now intros [= <- _].
Qed.

Lemma strip_last (s t : pystr) (c : N) :
  strip s = t ++ [c] -> isspace c = false.
Proof.
  unfold strip, rstrip. intros H.
  apply (f_equal (@rev N)) in H.
  rewrite rev_involutive, rev_app_distr in H. simpl in H.
  now apply lstrip_head in H.
Qed.

(** A stripped string does not end in a line feed, so [$] matches at its end
    only. *)
Lemma chop_newline_strip (s : pystr) : chop_newline (strip s) = None.
Proof.
  apply chop_newline_None. intros s' H.
  apply strip_last in H. discriminate.
Qed.

Lemma validate_username_strip (s : pystr) :
  fst (validate_username (strip s)) = true <-> username_shape (strip s).
Proof.
  rewrite validate_username_accepts_iff. unfold username_shape.
  split; intros [Hlen H]; split; auto.
  destruct H as [H | (s' & E & _)]; auto.
  apply strip_last in E. discriminate.
Qed.

Lemma validate_email_strip (s : pystr) :
  validate_email (strip s) = true <-> email_shape (strip s).
Proof.
  rewrite validate_email_true. split; auto.
  intros [H | (s' & E & _)]; auto.
  apply strip_last in E. discriminate.
Qed.

(* ================================================================== *)
(** ** More on registration *)

Section MoreRegisterProperties.

Variable generate_password_hash : pystr -> pystr -> pystr.
Variable unicode_decimal : N -> bool.

Lemma validate_password_true (s : pystr) :
  fst (validate_password unicode_decimal s) = true ->
  first_failing_rule (password_rules unicode_decimal) s = None.
Proof.
  assert (E : (8 <=? len s)%nat = negb (len s <? 8)%nat).
  { destruct (Nat.ltb_spec (len s) 8), (Nat.leb_spec 8 (len s));
      simpl; auto; lia. }
  unfold validate_password, re_search_class, password_rules.
  cbn [first_failing_rule]. rewrite E.
  destruct (len s <? 8)%nat; cbn [negb fst]; [discriminate |].
  destruct (existsb (in_range "A" "Z") s); cbn [negb fst]; [| discriminate].
  destruct (existsb (in_range "a" "z") s); cbn [negb fst]; [| discriminate].
  destruct (existsb unicode_decimal s); cbn [negb fst]; [| discriminate].
  destruct (existsb cls_special s); cbn [negb fst]; [| discriminate].
  reflexivity.
Qed.

(** The two ways a call of [register] ends: without success and with the
    database untouched, or with success, every check passed and one row
    inserted. *)
Lemma register_inv (e : register_env) (m : http_method) (form : register_form)
    (st : db) :
  (fst (register generate_password_hash unicode_decimal e m form st)
     <> RegisterSuccess
   /\ snd (register generate_password_hash unicode_decimal e m form st) = st)
  \/ (m = POST
      /\ register_conn e = ConnOk
      /\ username_shape (strip (form_username form))
      /\ email_shape (strip (form_email form))
      /\ form_password form <> []
      /\ first_failing_rule (password_rules unicode_decimal)
           (form_password form) = None
      /\ form_confirm_password form = form_password form
      /\ find_user_or_email (strip (form_username form))
           (strip (form_email form)) (users st) = None
      /\ register generate_password_hash unicode_decimal e m form st
         = (RegisterSuccess,
            insert_user (register_now e) (strip (form_username form))
              (strip (form_email form))
              (generate_password_hash (form_password form) (register_salt e))
              st)).
Proof.
  unfold register. destruct m; [left; split; [discriminate | reflexivity] |].
  destruct (py_not (strip (form_username form))
            || py_not (strip (form_email form))
            || py_not (form_password form)) eqn:Ereq;
    [left; split; [discriminate | reflexivity] |].
  apply orb_false_iff in Ereq as [_ Ereq]. apply py_not_false in Ereq.
  pose proof (validate_username_strip (form_username form)) as Hu.
  destruct (validate_username (strip (form_username form))) as [uv um].
  destruct uv; cbn [negb fst] in *;
    [| left; split; [discriminate | reflexivity]].
  pose proof (validate_email_strip (form_email form)) as Hm.
  destruct (validate_email (strip (form_email form))); cbn [negb];
    [| left; split; [discriminate | reflexivity]].
  pose proof (validate_password_true (form_password form)) as Hp.
  destruct (validate_password unicode_decimal (form_password form)) as [pv pm].
  destruct pv; cbn [negb fst] in *;
    [| left; split; [discriminate | reflexivity]].
  destruct (pystr_eqb (form_password form) (form_confirm_password form))
    eqn:Ec; cbn [negb]; [| left; split; [discriminate | reflexivity]].
  apply pystr_eqb_eq in Ec.
  destruct (register_conn e); [| left; split; [discriminate | reflexivity]].
  destruct (find_user_or_email _ _ _) eqn:Ef;
    [left; split; [discriminate | reflexivity] |].
  right.
  split; [reflexivity |]. split; [reflexivity |].
  split; [now apply Hu |]. split; [now apply Hm |].
  split; [assumption |]. split; [now apply Hp |].
  split; [now symmetry |]. split; reflexivity.
Qed.

(** X3.  A registration answered with success passed every check: the
    stripped username is 3 to 20 code points of [[a-zA-Z0-9_]] (a final line
    feed cannot get here), the stripped email has the shape
    local@domain.tld, the password meets all five rules and equals its
    confirmation, no row has that username or email, and the new database is
    the old one with that one row inserted. *)
Theorem register_success_guarantees (e : register_env) (m : http_method)
    (form : register_form) (st st' : db) :
  register generate_password_hash unicode_decimal e m form st
    = (RegisterSuccess, st') ->
  username_shape (strip (form_username form))
  /\ email_shape (strip (form_email form))
  /\ first_failing_rule (password_rules unicode_decimal) (form_password form)
     = None
  /\ form_confirm_password form = form_password form
  /\ find_user_or_email (strip (form_username form))
       (strip (form_email form)) (users st) = None
  /\ st' = insert_user (register_now e) (strip (form_username form))
             (strip (form_email form))
             (generate_password_hash (form_password form) (register_salt e))
             st.
Proof.
  intros H.
  destruct (register_inv e m form st)
    as [[Hne _] | (_ & _ & Hu & Hm & _ & Hp & Hc & Hf & E)].
  - rewrite H in Hne. now elim Hne.
  - rewrite E in H. injection H as <-. auto 6.
Qed.

(** X4.  A registration that is not answered with success -- a failed check,
    an existing username or email, a storage error -- leaves both tables
    exactly as they were. *)
Theorem register_failure_leaves_db (e : register_env) (m : http_method)
    (form : register_form) (st : db) :
  fst (register generate_password_hash unicode_decimal e m form st)
    <> RegisterSuccess ->
  snd (register generate_password_hash unicode_decimal e m form st) = st.
Proof.
  intros H.
  destruct (register_inv e m form st) as [[_ E] | (_ & _ & _ & _ & _ & _ & _ & _ & E)];
    auto.
  rewrite E in H. now elim H.
Qed.

(** X5.  [register] never creates a second account under an existing
    username or an existing email: when a row already has the stripped
    username or the stripped email of the form, the call is not answered
    with success and the database is left as it was. *)
Theorem register_rejects_duplicates (e : register_env) (m : http_method)
    (form : register_form) (st : db) (a : user) :
  In a (users st) ->
  username a = strip (form_username form)
  \/ email a = strip (form_email form) ->
  fst (register generate_password_hash unicode_decimal e m form st)
    <> RegisterSuccess
  /\ snd (register generate_password_hash unicode_decimal e m form st) = st.
Proof.
  intros Ha Hdup.
  destruct (register_inv e m form st)
    as [H | (_ & _ & _ & _ & _ & _ & _ & Hf & _)]; auto.
  exfalso. unfold find_user_or_email in Hf.
  apply (find_none _ _ Hf) in Ha. apply orb_false_iff in Ha as [H1 H2].
  apply pystr_eqb_neq in H1, H2. tauto.
Qed.

End MoreRegisterProperties.

(* ================================================================== *)
(** ** What the handlers leave in place *)

Lemma identity_update_users (u : pystr) (f : user -> user) (rows : list user) :
  (forall r, identity (f r) = identity r) ->
  map identity (update_users u f rows) = map identity rows.
Proof.
  intros Hf. unfold update_users. rewrite map_map. apply map_ext.
  intros r. destruct (pystr_eqb (username r) u); auto.
Qed.

Lemma maps_of_identity (l l' : list user) :
  map identity l = map identity l' ->
  map username l = map username l'
  /\ map email l = map email l'
  /\ map user_id l = map user_id l'
  /\ List.length l = List.length l'.
Proof.
  revert l'. induction l as [| x l IH]; intros [| y l']; simpl;
    try discriminate; auto.
  intros H. injection H as Hid Hnm Hem _ _ Hl.
  destruct (IH _ Hl) as (-> & -> & -> & ->). rewrite Hid, Hnm, Hem. auto.
Qed.

Lemma Forall_update_users (P : user -> Prop) (u : pystr) (f : user -> user)
    (rows : list user) :
  Forall P rows ->
  (forall r, In r rows -> username r = u -> P (f r)) ->
  Forall P (update_users u f rows).
Proof.
  intros Hall Hf. apply Forall_forall. intros r' Hr'.
  rewrite Forall_forall in Hall.
  unfold update_users in Hr'. apply in_map_iff in Hr' as (r & <- & Hr).
  destruct (pystr_eqb (username r) u) eqn:E; auto.
  apply pystr_eqb_eq in E. auto.
Qed.

(** The helpers rewrite rows in place and keep the identity columns. *)
Lemma is_account_locked_frame (c : conn) (now : Z) (u : pystr) (st : db) :
  map identity (users (snd (is_account_locked c now u st)))
    = map identity (users st)
  /\ users_seq (snd (is_account_locked c now u st)) = users_seq st
  /\ login_attempts (snd (is_account_locked c now u st)) = login_attempts st
  /\ login_attempts_seq (snd (is_account_locked c now u st))
     = login_attempts_seq st.
Proof.
  destruct c; simpl; auto.
  destruct (find_user u (users st)) as [a |]; auto.
  destruct (account_locked_until a) as [l |]; auto.
  destruct (now <? l); auto. simpl.
  rewrite identity_update_users; auto.
Qed.

Lemma increment_failed_login_frame (c : conn) (now : Z) (u : pystr) (st : db) :
  map identity (users (increment_failed_login c now u st))
    = map identity (users st)
  /\ users_seq (increment_failed_login c now u st) = users_seq st
  /\ login_attempts (increment_failed_login c now u st) = login_attempts st
  /\ login_attempts_seq (increment_failed_login c now u st)
     = login_attempts_seq st.
Proof.
  destruct c; simpl; auto.
  destruct (find_user u (update_users u set_failed_plus_one (users st)))
    as [a |]; [destruct (5 <=? failed_login_attempts a) |]; simpl;
    repeat rewrite identity_update_users; auto.
Qed.

Lemma reset_failed_login_frame (c : conn) (now : Z) (u : pystr) (st : db) :
  map identity (users (reset_failed_login c now u st))
    = map identity (users st)
  /\ users_seq (reset_failed_login c now u st) = users_seq st
  /\ login_attempts (reset_failed_login c now u st) = login_attempts st
  /\ login_attempts_seq (reset_failed_login c now u st)
     = login_attempts_seq st.
Proof.
  destruct c; simpl; auto. rewrite identity_update_users; auto.
Qed.

Lemma users_seq_log_login_attempt (c : conn) (now : Z) (u : pystr)
    (ip : option pystr) (ok : bool) (st : db) :
  users_seq (log_login_attempt c now u ip ok st) = users_seq st.
Proof. destruct c, ip; reflexivity. Qed.

Lemma log_login_attempt_grows (c : conn) (now : Z) (u : pystr)
    (ip : option pystr) (ok : bool) (st : db) :
  exists more,
    login_attempts (log_login_attempt c now u ip ok st)
      = login_attempts st ++ more
    /\ (List.length more <= 1)%nat.
Proof.
  destruct c, ip; simpl;
    solve [ eexists; split; [reflexivity | simpl; lia]
          | exists []; rewrite app_nil_r; split; [reflexivity | simpl; lia] ].
Qed.

Section MoreLoginProperties.

Variable check_password_hash : pystr -> pystr -> bool.
Variable generate_password_hash : pystr -> pystr -> pystr.
Variable unicode_decimal : N -> bool.

Lemma login_accounts_frame (e : login_env) (m : http_method) (fu p : pystr)
    (ip : option pystr) (st : db) :
  map identity (users (snd (login check_password_hash e m fu p ip st)))
    = map identity (users st)
  /\ users_seq (snd (login check_password_hash e m fu p ip st)) = users_seq st.
Proof.
  unfold login. destruct m; auto.
  destruct (py_not (strip fu) || py_not p); auto.
  destruct (is_account_locked_frame (lock_conn e) (lock_now e) (strip fu) st)
    as (H1 & H2 & _).
  destruct (is_account_locked _ _ _ _) as [locked st1]. simpl in H1, H2.
  destruct locked; simpl.
  { now rewrite users_log_login_attempt, users_seq_log_login_attempt. }
  destruct (lookup_conn e); auto.
  destruct (increment_failed_login_frame (update_conn e) (fail_now e)
              (strip fu) st1) as (I1 & I2 & _).
  destruct (reset_failed_login_frame (update_conn e) (stamp_now e)
              (strip fu) st1) as (R1 & R2 & _).
  destruct (find_user (strip fu) (users st1)) as [a |];
    [destruct (check_password_hash (password_hash a) p) |]; simpl;
    rewrite users_log_login_attempt, users_seq_log_login_attempt;
    split; congruence.
Qed.

Lemma login_log_grows (e : login_env) (m : http_method) (fu p : pystr)
    (ip : option pystr) (st : db) :
  exists more,
    login_attempts (snd (login check_password_hash e m fu p ip st))
      = login_attempts st ++ more
    /\ (List.length more <= 1)%nat.
Proof.
  assert (Z0 : exists more, login_attempts st = login_attempts st ++ more
                            /\ (List.length more <= 1)%nat).
  { exists []. rewrite app_nil_r. simpl. split; [reflexivity | lia]. }
  unfold login. destruct m; auto.
  destruct (py_not (strip fu) || py_not p); auto.
  destruct (is_account_locked_frame (lock_conn e) (lock_now e) (strip fu) st)
    as (_ & _ & H1 & _).
  destruct (is_account_locked _ _ _ _) as [locked st1]. simpl in H1.
  rewrite <- H1 in *. clear H1.
  destruct locked; simpl.
  { apply log_login_attempt_grows. }
  destruct (lookup_conn e); auto.
  destruct (increment_failed_login_frame (update_conn e) (fail_now e)
              (strip fu) st1) as (_ & _ & I1 & _).
  destruct (reset_failed_login_frame (update_conn e) (stamp_now e)
              (strip fu) st1) as (_ & _ & R1 & _).
  destruct (find_user (strip fu) (users st1)) as [a |];
    [destruct (check_password_hash (password_hash a) p) |]; simpl.
  - rewrite <- R1. apply log_login_attempt_grows.
  - rewrite <- I1. apply log_login_attempt_grows.
  - rewrite <- I1. apply log_login_attempt_grows.
Qed.

(** One request: the identity columns of the rows stay, and at most one row
    is added at the end; the log keeps its rows, and at most one is added at
    the end. *)
Lemma handle_grows (r : request) (st : db) :
  (exists more,
     map identity
       (users (handle check_password_hash generate_password_hash
                 unicode_decimal r st))
       = map identity (users st) ++ more
     /\ (List.length more <= 1)%nat)
  /\ (exists more,
        login_attempts (handle check_password_hash generate_password_hash
                          unicode_decimal r st)
          = login_attempts st ++ more
        /\ (List.length more <= 1)%nat).
Proof.
  destruct r as [e m form | e m fu p ip]; simpl.
  - destruct (register_inv generate_password_hash unicode_decimal e m form st)
      as [[_ E] | (_ & _ & _ & _ & _ & _ & _ & _ & E)]; rewrite E.
    + split; exists []; rewrite app_nil_r; simpl; split; auto; lia.
    + simpl. rewrite map_app. split.
      * eexists. split; [reflexivity | simpl; lia].
      * exists []. rewrite app_nil_r; simpl; split; auto; lia.
  - split.
    + destruct (login_accounts_frame e m fu p ip st) as [-> _].
      exists []. rewrite app_nil_r; simpl; split; auto; lia.
    + apply login_log_grows.
Qed.

Lemma serve_cons (r : request) (rs : list request) (st : db) :
  serve check_password_hash generate_password_hash unicode_decimal (r :: rs) st
  = serve check_password_hash generate_password_hash unicode_decimal rs
      (handle check_password_hash generate_password_hash unicode_decimal r st).
Proof. reflexivity. Qed.

(** X6.  Accounts are never deleted and never change identity: after any
    sequence of requests, whatever storage errors occur, the id, username,
    email, password hash and creation time of every row are what they were,
    in the same order, and at most one row per request has been added after
    them. *)
Theorem accounts_never_deleted (rs : list request) (st : db) :
  exists more,
    map identity
      (users (serve check_password_hash generate_password_hash
                unicode_decimal rs st))
      = map identity (users st) ++ more
    /\ (List.length more <= List.length rs)%nat.
Proof.
  revert st. induction rs as [| r rs IH]; intros st.
  - exists []. rewrite app_nil_r. simpl. split; [reflexivity | lia].
  - destruct (handle_grows r st) as [(m1 & E1 & L1) _].
    destruct (IH (handle check_password_hash generate_password_hash
                    unicode_decimal r st)) as (m2 & E2 & L2).
    rewrite serve_cons, E2, E1, <- app_assoc.
    exists (m1 ++ m2). split; [reflexivity |].
    rewrite length_app. simpl. lia.
Qed.

(** X7.  The log of login attempts is append-only: after any sequence of
    requests, whatever storage errors occur, the rows it held are still
    there, unchanged and in the same order, and at most one row per request
    has been added after them. *)
Theorem login_attempts_append_only (rs : list request) (st : db) :
  exists more,
    login_attempts (serve check_password_hash generate_password_hash
                      unicode_decimal rs st)
      = login_attempts st ++ more
    /\ (List.length more <= List.length rs)%nat.
Proof.
  revert st. induction rs as [| r rs IH]; intros st.
  - exists []. rewrite app_nil_r. simpl. split; [reflexivity | lia].
  - destruct (handle_grows r st) as [_ (m1 & E1 & L1)].
    destruct (IH (handle check_password_hash generate_password_hash
                    unicode_decimal r st)) as (m2 & E2 & L2).
    rewrite serve_cons, E2, E1, <- app_assoc.
    exists (m1 ++ m2). split; [reflexivity |].
    rewrite length_app. simpl. lia.
Qed.

(** X8.  What a POST to [login] writes to the log, its log block working and
    the request carrying an address: one row with the stripped username,
    the address and the flag false when the answer is locked or invalid
    credentials, one row with the flag true when it is success, and nothing
    when a field is empty or the lookup raises. *)
Theorem login_logs_outcome (e : login_env) (fu p ip : pystr) (st : db) :
  log_conn e = ConnOk ->
  login_attempts (snd (login check_password_hash e POST fu p (Some ip) st))
  = login_attempts st
    ++ logged_attempt e fu ip
         (fst (login check_password_hash e POST fu p (Some ip) st)) st.
Proof.
  intros Hlog. unfold login.
  destruct (py_not (strip fu) || py_not p); simpl.
  { now rewrite app_nil_r. }
  destruct (is_account_locked_frame (lock_conn e) (lock_now e) (strip fu) st)
    as (_ & _ & H1 & H2).
  destruct (is_account_locked _ _ _ _) as [locked st1]. simpl in H1, H2.
  destruct locked; simpl.
  { rewrite Hlog. simpl. now rewrite H1, H2. }
  destruct (lookup_conn e); simpl; [| now rewrite app_nil_r].
  destruct (increment_failed_login_frame (update_conn e) (fail_now e)
              (strip fu) st1) as (_ & _ & I1 & I2).
  destruct (reset_failed_login_frame (update_conn e) (stamp_now e)
              (strip fu) st1) as (_ & _ & R1 & R2).
  destruct (find_user (strip fu) (users st1)) as [a |];
    [destruct (check_password_hash (password_hash a) p) |]; simpl;
    rewrite Hlog; simpl; congruence.
Qed.

End MoreLoginProperties.

(* ================================================================== *)
(** ** Invariants of the tables *)

Lemma accounts_wf_frame (st st' : db) :
  map identity (users st') = map identity (users st) ->
  users_seq st' = users_seq st ->
  accounts_wf st -> accounts_wf st'.
Proof.
  intros Hid Hseq. apply maps_of_identity in Hid as (Hn & Hm & Hi & Hl).
  unfold accounts_wf. now rewrite Hn, Hm, Hi, Hl, Hseq.
Qed.

Lemma find_user_or_email_None_email (u m : pystr) (rows : list user) :
  find_user_or_email u m rows = None -> ~ In m (map email rows).
Proof.
  unfold find_user_or_email. intros H Hin.
  apply in_map_iff in Hin as (r & Hm & Hr).
  apply (find_none _ _ H) in Hr. apply orb_false_iff in Hr as [_ Hr].
  apply pystr_eqb_neq in Hr. congruence.
Qed.

Lemma NoDup_snoc (l : list pystr) (x : pystr) :
  NoDup l -> ~ In x l -> NoDup (l ++ [x]).
Proof.
  intros Hl Hx. apply NoDup_app; auto.
  - repeat constructor. simpl. tauto.
  - intros y Hy [<- | []]. auto.
Qed.

Lemma ids_upto_S (n : nat) : ids_upto (S n) = ids_upto n ++ [Z.of_nat n + 1].
Proof.
  unfold ids_upto. rewrite seq_S, map_app. simpl.
  do 2 f_equal. lia.
Qed.

Lemma accounts_wf_insert (now : Z) (u m h : pystr) (st : db) :
  accounts_wf st ->
  find_user_or_email u m (users st) = None ->
  username_shape u -> email_shape m ->
  accounts_wf (insert_user now u m h st).
Proof.
  intros (Hn & Hm & Hi & Hs & Hun & Hem) Hf Hu He.
  unfold accounts_wf, insert_user. simpl.
  rewrite !map_app, length_app. simpl.
  replace (List.length (users st) + 1)%nat with (S (List.length (users st)))
    by lia.
  repeat split.
  - apply NoDup_snoc; auto. now apply find_user_or_email_None in Hf.
  - apply NoDup_snoc; auto. now apply find_user_or_email_None_email in Hf.
  - now rewrite ids_upto_S, Hi, Hs.
  - rewrite Hs. lia.
  - apply Forall_app. split; auto.
  - apply Forall_app. split; auto.
Qed.

Lemma lock_state_ok_unlocked (r : user) : lock_state_ok (set_unlocked r).
Proof. split; simpl; [lia | split; [lia | reflexivity]]. Qed.

Lemma lock_state_ok_login_success (t : Z) (r : user) :
  lock_state_ok (set_login_success t r).
Proof. split; simpl; [lia | split; [lia | reflexivity]]. Qed.

Lemma lock_state_ok_after_failure (now : Z) (a : user) :
  lock_state_ok a -> lock_state_ok (row_after_failure now a).
Proof.
  intros [H0 Hiff]. unfold row_after_failure.
  destruct (Z.leb_spec 5 (failed_login_attempts a + 1)); split; simpl; try lia.
  - split; [discriminate | lia].
  - split; [lia |]. intros _. apply Hiff. lia.
Qed.

Lemma lock_state_is_account_locked (c : conn) (now : Z) (u : pystr) (st : db) :
  Forall lock_state_ok (users st) ->
  Forall lock_state_ok (users (snd (is_account_locked c now u st))).
Proof.
  intros H. destruct c; simpl; auto.
  destruct (find_user u (users st)) as [a |]; auto.
  destruct (account_locked_until a) as [l |]; auto.
  destruct (now <? l); auto. simpl.
  apply Forall_update_users; auto. intros. apply lock_state_ok_unlocked.
Qed.

Lemma lock_state_reset_failed_login (c : conn) (now : Z) (u : pystr) (st : db) :
  Forall lock_state_ok (users st) ->
  Forall lock_state_ok (users (reset_failed_login c now u st)).
Proof.
  intros H. destruct c; simpl; auto.
  apply Forall_update_users; auto. intros. apply lock_state_ok_login_success.
Qed.

(** With unique usernames a recorded failure keeps the lock in step with the
    counter, whatever the row held before. *)
Lemma lock_state_increment_failed_login (c : conn) (now : Z) (u : pystr)
    (st : db) :
  NoDup (map username (users st)) ->
  Forall lock_state_ok (users st) ->
  Forall lock_state_ok (users (increment_failed_login c now u st)).
Proof.
  intros Hnd H. destruct c; auto.
  destruct (find_user u (users st)) as [a |] eqn:Ha.
  - assert (Hsame : forall r, In r (users st) -> username r = u -> r = a).
    { intros r Hr Hu. now apply (find_user_unique u (users st)). }
    assert (Hok : lock_state_ok (row_after_failure now a)).
    { apply lock_state_ok_after_failure.
      rewrite Forall_forall in H. apply H. now apply find_user_In in Ha. }
    rewrite (increment_failed_login_users _ _ _ _ Ha).
    unfold row_after_failure in Hok.
    destruct (5 <=? failed_login_attempts a + 1);
      apply Forall_update_users; auto;
      intros r Hr Hu; now rewrite (Hsame r Hr Hu).
  - now rewrite increment_failed_login_absent.
Qed.

Section Invariants.

Variable check_password_hash : pystr -> pystr -> bool.
Variable generate_password_hash : pystr -> pystr -> pystr.
Variable unicode_decimal : N -> bool.

Lemma site_wf_login (e : login_env) (m : http_method) (fu p : pystr)
    (ip : option pystr) (st : db) :
  site_wf st -> site_wf (snd (login check_password_hash e m fu p ip st)).
Proof.
  intros [Hacc Hlock]. split.
  { destruct (login_accounts_frame check_password_hash e m fu p ip st)
      as [H1 H2].
    now apply (accounts_wf_frame st). }
  unfold login. destruct m; auto.
  destruct (py_not (strip fu) || py_not p); auto.
  pose proof (lock_state_is_account_locked (lock_conn e) (lock_now e)
                (strip fu) st Hlock) as H1.
  destruct (is_account_locked_frame (lock_conn e) (lock_now e) (strip fu) st)
    as (Hid & _).
  destruct (is_account_locked _ _ _ _) as [locked st1]. simpl in H1, Hid.
  assert (Hnd : NoDup (map username (users st1))).
  { apply maps_of_identity in Hid as (-> & _). apply Hacc. }
  destruct locked; simpl.
  { now rewrite users_log_login_attempt. }
  destruct (lookup_conn e); auto.
  destruct (find_user (strip fu) (users st1)) as [a |];
    [destruct (check_password_hash (password_hash a) p) |]; simpl;
    rewrite users_log_login_attempt.
  - now apply lock_state_reset_failed_login.
  - now apply lock_state_increment_failed_login.
  - now apply lock_state_increment_failed_login.
Qed.

Lemma site_wf_register (e : register_env) (m : http_method)
    (form : register_form) (st : db) :
  site_wf st ->
  site_wf (snd (register generate_password_hash unicode_decimal e m form st)).
Proof.
  intros [Hacc Hlock].
  destruct (register_inv generate_password_hash unicode_decimal e m form st)
    as [[_ E] | (_ & _ & Hu & Hm & _ & _ & _ & Hf & E)]; rewrite E.
  - now split.
  - simpl. split.
    + now apply accounts_wf_insert.
    + simpl. apply Forall_app. split; auto.
      constructor; auto. split; simpl; [lia | split; [lia | reflexivity]].
Qed.

Lemma site_wf_init : site_wf init_db.
Proof.
  repeat split; simpl; try constructor; try discriminate; try lia.
Qed.

Lemma site_wf_serve (rs : list request) :
  site_wf (serve check_password_hash generate_password_hash unicode_decimal
             rs init_db).
Proof.
  unfold serve. generalize site_wf_init. generalize init_db.
  induction rs as [| r rs IH]; intros st Hst; simpl; auto.
  apply IH. destruct r; simpl.
  - now apply site_wf_register.
  - now apply site_wf_login.
Qed.

(** X9.  After any sequence of requests on a fresh database, whatever
    storage errors occur, no two accounts share a username, no two share an
    email, and the ids are 1, 2, ..., n in the order of registration. *)
Theorem accounts_unique (rs : list request) :
  let st := serve check_password_hash generate_password_hash unicode_decimal
              rs init_db in
  NoDup (map username (users st))
  /\ NoDup (map email (users st))
  /\ map user_id (users st) = ids_upto (List.length (users st)).
Proof.
  destruct (site_wf_serve rs) as [(H1 & H2 & H3 & _) _]. auto.
Qed.

(** X10.  After any sequence of requests on a fresh database, every stored
    username is 3 to 20 code points of [[a-zA-Z0-9_]] and every stored email
    has the shape local@domain.tld: the final line feed that
    [validate_username] and [validate_email] let through never reaches the
    table, because [register] strips its input first. *)
Theorem stored_names_well_formed (rs : list request) (a : user) :
  In a (users (serve check_password_hash generate_password_hash
                 unicode_decimal rs init_db)) ->
  username_shape (username a) /\ email_shape (email a).
Proof.
  intros Ha.
  destruct (site_wf_serve rs) as [(_ & _ & _ & _ & H1 & H2) _].
  rewrite Forall_forall in H1, H2.
  split; [apply H1 | apply H2]; now apply in_map.
Qed.

(** X11.  After any sequence of requests on a fresh database, whatever
    storage errors occur, every account has a counter that is not negative
    and carries a lock exactly when its counter has reached 5. *)
Theorem lock_set_iff_counter_reached (rs : list request) (a : user) :
  In a (users (serve check_password_hash generate_password_hash
                 unicode_decimal rs init_db)) ->
  0 <= failed_login_attempts a
  /\ (account_locked_until a = None <-> failed_login_attempts a < 5).
Proof.
  intros Ha. destruct (site_wf_serve rs) as [_ H].
  rewrite Forall_forall in H. now apply H.
Qed.

End Invariants.

(* ================================================================== *)
(** ** More on [login] *)

Lemma find_user_app_absent (u : pystr) (rows more : list user) :
  find_user u rows = None -> find_user u (rows ++ more) = find_user u more.
Proof.
  unfold find_user. induction rows as [| x rows IH]; simpl; auto.
  destruct (pystr_eqb (username x) u); [discriminate | auto].
Qed.

Section LoginBehaviour.

Variable check_password_hash : pystr -> pystr -> bool.
Variable generate_password_hash : pystr -> pystr -> pystr.
Variable unicode_decimal : N -> bool.

(** X12.  While an account is locked and the lock check reads without
    error, a login for it is answered as locked whatever the password, and
    no row of [users] changes: the attempt is not counted and the lock is
    not extended. *)
Theorem login_while_locked (e : login_env) (fu p : pystr) (ip : option pystr)
    (st : db) (a : user) (l : Z) :
  lock_conn e = ConnOk ->
  strip fu <> [] ->
  p <> [] ->
  find_user (strip fu) (users st) = Some a ->
  account_locked_until a = Some l ->
  lock_now e < l ->
  fst (login check_password_hash e POST fu p ip st) = LoginLocked
  /\ users (snd (login check_password_hash e POST fu p ip st)) = users st.
Proof.
  intros Hc Hu Hp Ha Hl Hlt.
  rewrite (login_locked _ _ _ _ _ st st); auto.
  - simpl. now rewrite users_log_login_attempt.
  - rewrite Hc. now apply is_account_locked_active with a l.
Qed.

(** X13.  A wrong password for an account that is not locked at the time of
    the check, served without storage errors: the answer is invalid
    credentials, and the row keeps its identity and [last_login], has its
    counter raised by one -- counted from zero when an expired lock was just
    cleared -- and gets a lock until 30 minutes after the failure exactly
    when the new counter is 5 or more. *)
Theorem login_wrong_password_effect (e : login_env) (fu p : pystr)
    (ip : option pystr) (st : db) (a : user) :
  all_conns_ok e ->
  strip fu <> [] ->
  p <> [] ->
  find_user (strip fu) (users st) = Some a ->
  (forall l, account_locked_until a = Some l -> l <= lock_now e) ->
  check_password_hash (password_hash a) p = false ->
  let base := match account_locked_until a with
              | None => failed_login_attempts a
              | Some _ => 0
              end in
  fst (login check_password_hash e POST fu p ip st) = LoginInvalid
  /\ exists a',
       find_user (strip fu)
         (users (snd (login check_password_hash e POST fu p ip st))) = Some a'
       /\ identity a' = identity a
       /\ last_login a' = last_login a
       /\ failed_login_attempts a' = base + 1
       /\ account_locked_until a'
          = if 5 <=? base + 1
            then Some (fail_now e + lockout_duration)
            else None.
Proof.
  intros (Hc1 & Hc2 & Hc3 & _) Hu Hp Ha Hopen Hchk base.
  destruct (account_locked_until a) as [l |] eqn:Hl.
  - rewrite (login_wrong_password _ _ _ _ _ st
               (set_users st (update_users (strip fu) set_unlocked (users st)))
               (set_unlocked a)); auto.
    + simpl. rewrite users_log_login_attempt, Hc3. split; auto.
      eexists. split.
      * apply increment_failed_login_found. simpl.
        rewrite find_user_update_same by reflexivity. now rewrite Ha.
      * subst base. unfold row_after_failure. simpl. auto.
    + rewrite Hc1. apply is_account_locked_expired with a l; auto.
    + simpl. rewrite find_user_update_same by reflexivity. now rewrite Ha.
  - rewrite (login_wrong_password _ _ _ _ _ st st a); auto.
    + simpl. rewrite users_log_login_attempt, Hc3. split; auto.
      exists (row_after_failure (fail_now e) a).
      split; [apply increment_failed_login_found; exact Ha |].
      subst base. unfold row_after_failure.
      destruct (5 <=? failed_login_attempts a + 1); simpl; auto.
    + now apply is_account_locked_unlocked with a.
Qed.

(** X14.  The right password, with the lock check and the lookup running
    without error: the answer is locked when the lock timestamp is still in
    the future at the time of the check, and success in every other case --
    no lock, or a lock that has expired. *)
Theorem login_right_password (e : login_env) (fu p : pystr)
    (ip : option pystr) (st : db) (a : user) :
  lock_conn e = ConnOk ->
  lookup_conn e = ConnOk ->
  strip fu <> [] ->
  p <> [] ->
  find_user (strip fu) (users st) = Some a ->
  check_password_hash (password_hash a) p = true ->
  fst (login check_password_hash e POST fu p ip st)
  = match account_locked_until a with
    | Some l =>
        if lock_now e <? l then LoginLocked
        else LoginSuccess (user_id a) (username a)
    | None => LoginSuccess (user_id a) (username a)
    end.
Proof.
  intros Hc1 Hc2 Hu Hp Ha Hchk.
  destruct (account_locked_until a) as [l |] eqn:Hl.
  - destruct (Z.ltb_spec (lock_now e) l) as [Hlt | Hge].
    + rewrite (login_locked _ _ _ _ _ st st); auto.
      rewrite Hc1. now apply is_account_locked_active with a l.
    + rewrite (login_success _ _ _ _ _ st
                 (set_users st
                    (update_users (strip fu) set_unlocked (users st)))
                 (set_unlocked a)); auto.
      * rewrite Hc1. now apply is_account_locked_expired with a l.
      * simpl. rewrite find_user_update_same by reflexivity. now rewrite Ha.
  - rewrite (login_success _ _ _ _ _ st st a); auto.
    now apply is_account_locked_unlocked with a.
Qed.

(** X15.  Lockout is per account: a registration, or a login for another
    username, leaves the row of an account exactly as it was -- counter,
    lock and [last_login] included -- whatever storage errors occur. *)
Theorem other_accounts_untouched (r : request) (st : db) (u : pystr)
    (a : user) :
  not_login_for u r ->
  find_user u (users st) = Some a ->
  find_user u
    (users (handle check_password_hash generate_password_hash
              unicode_decimal r st)) = Some a.
Proof.
  intros Hr Ha. destruct r as [e m form | e m fu p ip]; simpl in *.
  - destruct (register_users generate_password_hash unicode_decimal e m form st)
      as [E | (_ & ? & ? & ? & ? & E)]; rewrite E; auto.
    now apply find_user_app.
  - now rewrite find_user_login_other.
Qed.

(** X16.  Registration and login fit together: provided the hash library
    verifies the password it has just hashed, after a registration answered
    with success a login with the same form fields, its lookup running
    without error, is answered with success, under the id the new row was
    given and the stripped username. *)
Theorem register_then_login (e : register_env) (form : register_form)
    (st st' : db) (e' : login_env) (ip : option pystr) :
  check_password_hash
    (generate_password_hash (form_password form) (register_salt e))
    (form_password form) = true ->
  register generate_password_hash unicode_decimal e POST form st
    = (RegisterSuccess, st') ->
  lookup_conn e' = ConnOk ->
  fst (login check_password_hash e' POST (form_username form)
         (form_password form) ip st')
  = LoginSuccess (users_seq st + 1) (strip (form_username form)).
Proof.
  intros Hhash Hreg Hc.
  destruct (register_inv generate_password_hash unicode_decimal e POST form st)
    as [[Hne _] | (_ & _ & [Hlen _] & _ & Hp & _ & _ & Hf & E)].
  { rewrite Hreg in Hne. now elim Hne. }
  rewrite E in Hreg. injection Hreg as <-.
  set (new := mkUser (users_seq st + 1) (strip (form_username form))
                (strip (form_email form))
                (generate_password_hash (form_password form) (register_salt e))
                (register_now e) None 0 None).
  assert (Hnew : find_user (strip (form_username form))
                   (users (insert_user (register_now e)
                             (strip (form_username form))
                             (strip (form_email form))
                             (generate_password_hash (form_password form)
                                (register_salt e)) st)) = Some new).
  { simpl. rewrite find_user_app_absent.
    - unfold find_user. simpl. now rewrite pystr_eqb_refl.
    - apply find_user_None. intros r Hr Hu.
      apply find_user_or_email_None in Hf. apply Hf.
      rewrite <- Hu. now apply in_map. }
  assert (Hu : strip (form_username form) <> []).
  { intros H0. rewrite H0 in Hlen. simpl in Hlen. lia. }
  rewrite (login_success _ _ _ _ _ _
             (insert_user (register_now e) (strip (form_username form))
                (strip (form_email form))
                (generate_password_hash (form_password form) (register_salt e))
                st) new); auto.
  now apply is_account_locked_unlocked with new.
Qed.

End LoginBehaviour.

(** X17.  [is_account_locked] is idempotent: asked again at the same clock
    reading it gives the same answer and leaves the database it left the
    first time; and once a working check has answered false, every later
    check, at any clock reading, answers false and changes nothing until a
    new failure is recorded. *)
Theorem is_account_locked_idempotent (c : conn) (now : Z) (u : pystr)
    (st : db) :
  is_account_locked c now u (snd (is_account_locked c now u st))
    = is_account_locked c now u st
  /\ (c = ConnOk ->
      fst (is_account_locked c now u st) = false ->
      forall c' now',
        is_account_locked c' now' u (snd (is_account_locked c now u st))
        = (false, snd (is_account_locked c now u st))).
Proof.
  destruct c; [| split; [reflexivity | discriminate]].
  destruct (find_user u (users st)) as [a |] eqn:Ha.
  - destruct (account_locked_until a) as [l |] eqn:Hl.
    + destruct (Z.lt_ge_cases now l) as [Hlt | Hge].
      * rewrite (is_account_locked_active now u st a l) by auto.
        cbn [fst snd]. split; [| discriminate].
        now apply is_account_locked_active with a l.
      * rewrite (is_account_locked_expired now u st a l) by auto.
        cbn [fst snd].
        assert (H : forall c' now',
                   is_account_locked c' now' u
                     (set_users st (update_users u set_unlocked (users st)))
                   = (false,
                      set_users st (update_users u set_unlocked (users st)))).
        { intros c' now'.
          apply is_account_locked_unlocked with (set_unlocked a); auto.
          simpl. rewrite find_user_update_same by reflexivity.
          now rewrite Ha. }
        split; auto.
    + assert (H : forall c' now', is_account_locked c' now' u st = (false, st)).
      { intros. now apply is_account_locked_unlocked with a. }
      rewrite (H ConnOk now). cbn [fst snd]. split; [apply H |].
      intros _ _. apply H.
  - assert (H : forall c' now', is_account_locked c' now' u st = (false, st)).
    { intros. now apply is_account_locked_absent. }
    rewrite (H ConnOk now). cbn [fst snd]. split; [apply H |].
    intros _ _. apply H.
Qed.

(* ================================================================== *)
(** ** Sessions and the dashboard *)

Section SessionProperties.

Variable check_password_hash : pystr -> pystr -> bool.
Variable generate_password_hash : pystr -> pystr -> pystr.
Variable unicode_decimal : N -> bool.

(** The account a successful login names is a row of the database it
    leaves. *)
Lemma login_success_account (e : login_env) (m : http_method) (fu p : pystr)
    (ip : option pystr) (st : db) (uid : Z) (uname : pystr) :
  fst (login check_password_hash e m fu p ip st) = LoginSuccess uid uname ->
  exists a,
    In a (users (snd (login check_password_hash e m fu p ip st)))
    /\ user_id a = uid /\ username a = uname.
Proof.
  unfold login. destruct m; [discriminate |].
  destruct (py_not (strip fu) || py_not p); [discriminate |].
  destruct (is_account_locked _ _ _ _) as [locked st1].
  destruct locked; [discriminate |].
  destruct (lookup_conn e); [| discriminate].
  destruct (find_user (strip fu) (users st1)) as [a |] eqn:Ha; [| discriminate].
  destruct (check_password_hash (password_hash a) p); [| discriminate].
  simpl. intros [= <- <-]. rewrite users_log_login_attempt.
  destruct (update_conn e); simpl.
  - exists (set_login_success (stamp_now e) a). split; auto.
    apply find_user_In with (strip fu).
    rewrite find_user_update_same by reflexivity. now rewrite Ha.
  - exists a. split; auto. now apply find_user_In in Ha.
Qed.

Lemma session_ok_handle (r : request) (st : db) (s : session) :
  session_ok (st, s) ->
  session_ok
    (handle check_password_hash generate_password_hash unicode_decimal r st, s).
Proof.
  unfold session_ok. simpl. destruct (session_user_id s) as [uid |]; auto.
  intros (a & Ha & Hid & Hname).
  destruct (handle_grows check_password_hash generate_password_hash
              unicode_decimal r st) as [(more & E & _) _].
  assert (Hin : In (identity a)
                  (map identity
                     (users (handle check_password_hash generate_password_hash
                               unicode_decimal r st)))).
  { rewrite E. apply in_or_app. left. now apply in_map. }
  apply in_map_iff in Hin as (a' & Ea & Ha').
  unfold identity in Ea. injection Ea as E1 E2 _ _ _.
  exists a'. split; auto. split; congruence.
Qed.

Lemma session_ok_visit (v : visit) (w : db * session) :
  session_ok w ->
  session_ok (visit_step check_password_hash generate_password_hash
                unicode_decimal v w).
Proof.
  destruct w as [st s]. intros Hw.
  destruct v as [[e m form | e m fu p ip] | |]; simpl; auto.
  - apply (session_ok_handle (Register e m form) st s Hw).
  - pose proof (session_ok_handle (Login e m fu p ip) st s Hw) as H.
    pose proof (login_success_account e m fu p ip st) as Hs.
    simpl in H.
    destruct (login check_password_hash e m fu p ip st) as [r st'].
    simpl in *. destruct r; auto.
    destruct (Hs _ _ eq_refl) as (a & Ha & Hid & Hname).
    unfold session_ok. simpl. exists a. split; auto. split; congruence.
  - exact I.
Qed.

(** X18.  The dashboard is served only to the session of a registered
    account: after any sequence of registrations, logins, dashboard visits
    and logouts by a browser that started without a session, the dashboard
    either redirects to the login page or is rendered with the username of
    an account of the database whose id the session holds. *)
Theorem dashboard_only_for_accounts (vs : list visit) :
  let w := browse check_password_hash generate_password_hash unicode_decimal
             vs (init_db, session_clear) in
  dashboard (snd w) = page_redirect "login"
  \/ exists a,
       In a (users (fst w))
       /\ session_user_id (snd w) = Some (user_id a)
       /\ dashboard (snd w) = page_render "dashboard.html" (Some (username a)).
Proof.
  assert (H : forall vs w, session_ok w ->
              session_ok (browse check_password_hash generate_password_hash
                            unicode_decimal vs w)).
  { clear vs. unfold browse. induction vs as [| v vs IH]; intros w Hw; simpl; auto.
    apply IH. now apply session_ok_visit. }
  specialize (H vs (init_db, session_clear) I). simpl.
  destruct (browse _ _ _ vs (init_db, session_clear)) as [st s].
  unfold session_ok, dashboard, require_login in *. simpl in *.
  destruct (session_user_id s) as [uid |]; auto.
  destruct H as (a & Ha & Hid & Hname). right. exists a.
  rewrite Hname. repeat split; congruence.
Qed.

Lemma login_success_username (e : login_env) (m : http_method) (fu p : pystr)
    (ip : option pystr) (st : db) (uid : Z) (uname : pystr) :
  fst (login check_password_hash e m fu p ip st) = LoginSuccess uid uname ->
  uname = strip fu.
Proof.
  unfold login. destruct m; [discriminate |].
  destruct (py_not (strip fu) || py_not p); [discriminate |].
  destruct (is_account_locked _ _ _ _) as [locked st1].
  destruct locked; [discriminate |].
  destruct (lookup_conn e); [| discriminate].
  destruct (find_user (strip fu) (users st1)) as [a |] eqn:Ha; [| discriminate].
  destruct (check_password_hash (password_hash a) p); [| discriminate].
  simpl. intros [= _ <-]. now apply find_user_name in Ha.
Qed.

(** X19.  How a login and a logout move the dashboard: after a login
    answered with success it is rendered with the account's username; a
    login answered in any other way -- invalid, locked, failed -- leaves it
    as it was, so it does not end a session that is open; after a logout it
    redirects to the login page. *)
Theorem session_lifecycle (e : login_env) (m : http_method) (fu p : pystr)
    (ip : option pystr) (st : db) (s : session) :
  let r := fst (login check_password_hash e m fu p ip st) in
  (forall uid uname, r = LoginSuccess uid uname ->
     uname = strip fu
     /\ dashboard (login_session r s)
        = page_render "dashboard.html" (Some (strip fu)))
  /\ ((forall uid uname, r <> LoginSuccess uid uname) ->
      dashboard (login_session r s) = dashboard s)
  /\ dashboard (snd (logout (login_session r s))) = page_redirect "login".
Proof.
  intros r. split; [| split].
  - intros uid uname Hr.
    assert (uname = strip fu) as -> by now apply login_success_username in Hr.
    rewrite Hr. split; reflexivity.
  - intros Hno. destruct r; try reflexivity. now elim (Hno _ _ eq_refl).
  - reflexivity.
Qed.

(* ================================================================== *)
(** ** Monitoring endpoints *)

(** X20.  The user count moves only with registrations: a request raises
    the count by one when it is a registration answered with success and
    leaves it as it was in every other case. *)
Theorem user_count_after_request (r : request) (st : db) :
  user_count ConnOk
    (handle check_password_hash generate_password_hash unicode_decimal r st)
  = JsonOk
      (Z.of_nat (List.length (users st))
       + if registers generate_password_hash unicode_decimal r st
         then 1 else 0).
Proof.
  unfold user_count. f_equal.
  destruct r as [e m form | e m fu p ip]; simpl.
  - destruct (register_inv generate_password_hash unicode_decimal e m form st)
      as [[Hne E] | (_ & _ & _ & _ & _ & _ & _ & _ & E)]; rewrite E.
    + destruct (fst (register _ _ e m form st)); try lia. now elim Hne.
    + simpl. rewrite length_app. simpl. lia.
  - destruct (login_accounts_frame check_password_hash e m fu p ip st)
      as [H _].
    apply maps_of_identity in H as (_ & _ & _ & ->). lia.
Qed.

End SessionProperties.

(* ================================================================== *)
(** ** The attempts of a username *)

Lemma insert_by_timestamp_perm (a : login_attempt) (rows : list login_attempt) :
  Permutation (insert_by_timestamp a rows) (a :: rows).
Proof.
  induction rows as [| b rows IH]; simpl; auto.
  destruct (attempt_timestamp a <=? attempt_timestamp b); auto.
  rewrite IH. apply perm_swap.
Qed.

Lemma insert_by_timestamp_sorted (a : login_attempt)
    (rows : list login_attempt) :
  newest_first rows -> newest_first (insert_by_timestamp a rows).
Proof.
  unfold newest_first. induction rows as [| b rows IH]; simpl; intros H.
  - repeat constructor.
  - inversion H as [| ? ? Hs Hb]; subst.
    destruct (Z.leb_spec (attempt_timestamp a) (attempt_timestamp b)).
    + constructor; auto.
      rewrite insert_by_timestamp_perm. constructor; auto.
    + constructor; auto. constructor.
      * lia.
      * eapply Forall_impl; [| exact Hb]. simpl. intros c Hc. lia.
Qed.

Lemma order_by_timestamp_desc_spec (rows : list login_attempt) :
  Permutation (order_by_timestamp_desc rows) rows
  /\ newest_first (order_by_timestamp_desc rows).
Proof.
  unfold order_by_timestamp_desc.
  assert (H : forall acc,
            newest_first acc ->
            Permutation
              (fold_left (fun sorted a => insert_by_timestamp a sorted) rows acc)
              (acc ++ rows)
            /\ newest_first
                 (fold_left (fun sorted a => insert_by_timestamp a sorted)
                    rows acc)).
  { induction rows as [| a rows IH]; intros acc Hacc; simpl.
    - rewrite app_nil_r. auto.
    - destruct (IH (insert_by_timestamp a acc)) as [Hp Hs].
      { now apply insert_by_timestamp_sorted. }
      split; auto. rewrite Hp, insert_by_timestamp_perm.
      apply Permutation_middle. }
  apply (H []). constructor.
Qed.

Lemma StronglySorted_app_inv (A : Type) (R : A -> A -> Prop) (l1 l2 : list A) :
  StronglySorted R (l1 ++ l2) ->
  StronglySorted R l1 /\ forall x y, In x l1 -> In y l2 -> R x y.
Proof.
  induction l1 as [| a l1 IH]; simpl; intros H.
  - split; [constructor | tauto].
  - inversion H as [| ? ? Hs Ha]; subst.
    destruct (IH Hs) as [H1 H2]. apply Forall_app in Ha as [Ha1 Ha2].
    split; [now constructor |].
    intros x y [<- | Hx] Hy; auto.
    rewrite Forall_forall in Ha2. auto.
Qed.

Lemma attempts_of_In (u : pystr) (st : db) (a : login_attempt) :
  In a (attempts_of u st) <->
  In a (login_attempts st) /\ attempt_username a = u.
Proof.
  unfold attempts_of. rewrite filter_In. now rewrite pystr_eqb_eq.
Qed.

(** X21.  Every answer the attempts query may give for a username has at
    most 10 rows, all of them rows of the log for that username, listed
    newest first; a row of that username that is left out is no newer than
    any row listed; and when the username has at most 10 attempts the answer
    lists them all. *)
Theorem query_answer_properties (u : pystr) (st : db)
    (rows : list login_attempt) :
  query_answer u st rows ->
  (List.length rows <= 10)%nat
  /\ (forall a, In a rows ->
        In a (login_attempts st) /\ attempt_username a = u)
  /\ newest_first rows
  /\ (forall a b, In a (attempts_of u st) -> In b rows ->
        In a rows \/ attempt_timestamp a <= attempt_timestamp b)
  /\ ((List.length (attempts_of u st) <= 10)%nat ->
      Permutation rows (attempts_of u st)).
Proof.
  intros (sorted & Hp & Hs & ->).
  pose proof (firstn_skipn 10 sorted) as Hsplit.
  unfold newest_first in *. rewrite <- Hsplit in Hs.
  apply StronglySorted_app_inv in Hs as [Hs1 Hs2].
  split; [apply firstn_le_length |].
  split; [| split; [exact Hs1 | split]].
  - intros a Ha. apply attempts_of_In.
    apply (Permutation_in _ Hp). rewrite <- Hsplit.
    apply in_or_app. now left.
  - intros a b Ha Hb.
    apply (Permutation_in _ (Permutation_sym Hp)) in Ha.
    rewrite <- Hsplit in Ha. apply in_app_or in Ha as [Ha | Ha]; auto.
  - intros Hlen. rewrite firstn_all2; auto.
    rewrite (Permutation_length Hp). exact Hlen.
Qed.

(** X22.  [get_login_attempts], its query running without error, returns
    one of the answers the query may give; for a username without attempts
    in the log -- an unknown one among them -- it returns the empty list,
    not an error. *)
Theorem get_login_attempts_answers (u : pystr) (st : db) :
  (exists rows,
     get_login_attempts ConnOk u st = JsonOk rows /\ query_answer u st rows)
  /\ ((forall a, In a (login_attempts st) -> attempt_username a <> u) ->
      get_login_attempts ConnOk u st = JsonOk []).
Proof.
  split.
  - eexists. split; [reflexivity |].
    destruct (order_by_timestamp_desc_spec (attempts_of u st)) as [Hp Hs].
    exists (order_by_timestamp_desc (attempts_of u st)). auto.
  - intros Hno. unfold get_login_attempts.
    assert (E : attempts_of u st = []).
    { destruct (attempts_of u st) as [| a l] eqn:E; auto.
      assert (Ha : In a (attempts_of u st)) by (rewrite E; now left).
      apply attempts_of_In in Ha as [Ha Hu]. now apply Hno in Ha. }
    now rewrite E.
Qed.

(* ================================================================== *)
(** ** The further properties on sample requests *)

(** X3, on inputs: the registration of alice on a fresh database. *)
Lemma register_success_guarantees_witness :
  username_shape (strip (form_username sample_form))
  /\ email_shape (strip (form_email sample_form))
  /\ first_failing_rule (password_rules ascii_digit)
       (form_password sample_form) = None
  /\ form_confirm_password sample_form = form_password sample_form
  /\ find_user_or_email (strip (form_username sample_form))
       (strip (form_email sample_form)) (users init_db) = None
  /\ sample_db
     = insert_user (register_now sample_register_env)
         (strip (form_username sample_form)) (strip (form_email sample_form))
         (sample_generate_password_hash (form_password sample_form)
            (register_salt sample_register_env)) init_db.
Proof.
  apply (register_success_guarantees sample_generate_password_hash ascii_digit
           sample_register_env POST sample_form init_db sample_db).
  vm_compute. reflexivity.
Defined.

(** X4, on inputs: a form that fails the username check. *)
Lemma register_failure_leaves_db_witness :
  snd (register sample_generate_password_hash ascii_digit sample_register_env
         POST sample_bad_form sample_db) = sample_db.
Proof.
  apply (register_failure_leaves_db sample_generate_password_hash ascii_digit
           sample_register_env POST sample_bad_form sample_db).
  vm_compute. discriminate.
Defined.

(** X5, on inputs: a second registration under the username of alice. *)
Lemma register_rejects_duplicates_witness :
  fst (register sample_generate_password_hash ascii_digit sample_register_env
         POST sample_dup_form sample_db) <> RegisterSuccess
  /\ snd (register sample_generate_password_hash ascii_digit
            sample_register_env POST sample_dup_form sample_db) = sample_db.
Proof.
  apply (register_rejects_duplicates sample_generate_password_hash ascii_digit
           sample_register_env POST sample_dup_form sample_db sample_alice).
  - vm_compute. left. reflexivity.
  - left. vm_compute. reflexivity.
Defined.

(** X8, on inputs: a wrong password for alice is logged as one failure. *)
Lemma login_logs_outcome_witness :
  login_attempts
    (snd (login sample_check_password_hash (sample_env 2000) POST
            (py "alice") (py "wrong") (Some sample_addr) sample_db))
  = login_attempts sample_db
    ++ logged_attempt (sample_env 2000) (py "alice") sample_addr
         (fst (login sample_check_password_hash (sample_env 2000) POST
                 (py "alice") (py "wrong") (Some sample_addr) sample_db))
         sample_db.
Proof.
  apply (login_logs_outcome sample_check_password_hash (sample_env 2000)
           (py "alice") (py "wrong") sample_addr sample_db).
  reflexivity.
Defined.

Lemma sample_trace_alice :
  In sample_alice_locked
    (users (serve sample_check_password_hash sample_generate_password_hash
              ascii_digit sample_trace init_db)).
Proof. vm_compute. left. reflexivity. Qed.

(** X10, on inputs: the row of alice after the sample requests. *)
Lemma stored_names_well_formed_witness :
  username_shape (username sample_alice_locked)
  /\ email_shape (email sample_alice_locked).
Proof.
  apply (stored_names_well_formed sample_check_password_hash
           sample_generate_password_hash ascii_digit sample_trace).
  apply sample_trace_alice.
Defined.

(** X11, on inputs: the row of alice after her five failures. *)
Lemma lock_set_iff_counter_reached_witness :
  0 <= failed_login_attempts sample_alice_locked
  /\ (account_locked_until sample_alice_locked = None
      <-> failed_login_attempts sample_alice_locked < 5).
Proof.
  apply (lock_set_iff_counter_reached sample_check_password_hash
           sample_generate_password_hash ascii_digit sample_trace).
  apply sample_trace_alice.
Defined.

(** X12, on inputs: the locked alice tries again with a wrong password. *)
Lemma login_while_locked_witness :
  fst (login sample_check_password_hash (sample_env 2005) POST
         (py "alice") (py "wrong") (Some sample_addr) sample_locked_db)
  = LoginLocked
  /\ users (snd (login sample_check_password_hash (sample_env 2005) POST
                   (py "alice") (py "wrong") (Some sample_addr)
                   sample_locked_db))
     = users sample_locked_db.
Proof.
  apply (login_while_locked sample_check_password_hash (sample_env 2005)
           (py "alice") (py "wrong") (Some sample_addr) sample_locked_db
           sample_alice_locked (2004 + lockout_duration)).
  - reflexivity.
  - vm_compute. discriminate.
  - discriminate.
  - vm_compute. reflexivity.
  - reflexivity.
  - vm_compute. reflexivity.
Defined.

(** X13, on inputs: alice, whose lock has expired, submits a wrong password
    and is left with a counter of 1 and no lock. *)
Lemma login_wrong_password_effect_witness :
  exists a',
    find_user (strip (py "alice"))
      (users (snd (login sample_check_password_hash
                     (sample_env (2004 + lockout_duration)) POST
                     (py "alice") (py "wrong") (Some sample_addr)
                     sample_locked_db))) = Some a'
    /\ failed_login_attempts a' = 1
    /\ account_locked_until a' = None.
Proof.
  destruct (login_wrong_password_effect sample_check_password_hash
              (sample_env (2004 + lockout_duration)) (py "alice") (py "wrong")
              (Some sample_addr) sample_locked_db sample_alice_locked)
    as (_ & a' & H1 & _ & _ & H2 & H3).
  - repeat split.
  - vm_compute. discriminate.
  - discriminate.
  - vm_compute. reflexivity.
  - intros l [= <-]. simpl. lia.
  - vm_compute. reflexivity.
  - exists a'. auto.
Defined.

(** X14, on inputs: the right password of alice while she is locked. *)
Lemma login_right_password_witness :
  fst (login sample_check_password_hash (sample_env 2005) POST
         (py "alice") (py "Abc12345!") (Some sample_addr) sample_locked_db)
  = match account_locked_until sample_alice_locked with
    | Some l =>
        if lock_now (sample_env 2005) <? l then LoginLocked
        else LoginSuccess (user_id sample_alice_locked)
               (username sample_alice_locked)
    | None =>
        LoginSuccess (user_id sample_alice_locked)
          (username sample_alice_locked)
    end.
Proof.
  apply (login_right_password sample_check_password_hash (sample_env 2005)
           (py "alice") (py "Abc12345!") (Some sample_addr) sample_locked_db
           sample_alice_locked).
  - reflexivity.
  - reflexivity.
  - vm_compute. discriminate.
  - discriminate.
  - vm_compute. reflexivity.
  - vm_compute. reflexivity.
Defined.

(** X15, on inputs: a failed login for ghost leaves the row of alice. *)
Lemma other_accounts_untouched_witness :
  find_user (py "alice")
    (users (handle sample_check_password_hash sample_generate_password_hash
              ascii_digit sample_ghost_request sample_locked_db))
  = Some sample_alice_locked.
Proof.
  apply (other_accounts_untouched sample_check_password_hash
           sample_generate_password_hash ascii_digit sample_ghost_request
           sample_locked_db (py "alice") sample_alice_locked).
  - vm_compute. discriminate.
  - vm_compute. reflexivity.
Defined.

(** X16, on inputs: alice registers and logs in. *)
Lemma register_then_login_witness :
  fst (login sample_check_password_hash (sample_env 3000) POST
         (form_username sample_form) (form_password sample_form)
         (Some sample_addr) sample_db)
  = LoginSuccess (users_seq init_db + 1) (strip (form_username sample_form)).
Proof.
  apply (register_then_login sample_check_password_hash
           sample_generate_password_hash ascii_digit sample_register_env
           sample_form init_db sample_db (sample_env 3000) (Some sample_addr)).
  - vm_compute. reflexivity.
  - vm_compute. reflexivity.
  - reflexivity.
Defined.

(** X17, on inputs: the lock of alice checked twice when it expires. *)
Lemma is_account_locked_idempotent_witness :
  is_account_locked ConnOk 0 (py "alice")
    (snd (is_account_locked ConnOk (2004 + lockout_duration) (py "alice")
            sample_locked_db))
  = (false,
     snd (is_account_locked ConnOk (2004 + lockout_duration) (py "alice")
            sample_locked_db)).
Proof.
  apply (is_account_locked_idempotent ConnOk (2004 + lockout_duration)
           (py "alice") sample_locked_db).
  - reflexivity.
  - vm_compute. reflexivity.
Defined.

(** X19, on inputs: alice logs in and the dashboard shows her name. *)
Lemma session_lifecycle_witness :
  dashboard
    (login_session
       (fst (login sample_check_password_hash (sample_env 3000) POST
               (py " alice ") (py "Abc12345!") (Some sample_addr) sample_db))
       session_clear)
  = page_render "dashboard.html" (Some (strip (py " alice "))).
Proof.
  apply (session_lifecycle sample_check_password_hash (sample_env 3000) POST
           (py " alice ") (py "Abc12345!") (Some sample_addr) sample_db
           session_clear) with (uid := 1) (uname := py "alice").
  vm_compute. reflexivity.
Defined.

(** X21, on inputs: the answer computed for alice after her five failures. *)
Lemma query_answer_properties_witness :
  (List.length
     (firstn 10 (order_by_timestamp_desc
                   (attempts_of (py "alice") sample_locked_db))) <= 10)%nat.
Proof.
  destruct (query_answer_properties (py "alice") sample_locked_db
              (firstn 10 (order_by_timestamp_desc
                            (attempts_of (py "alice") sample_locked_db))))
    as [H _].
  - destruct (order_by_timestamp_desc_spec
                (attempts_of (py "alice") sample_locked_db)) as [Hp Hs].
    exists (order_by_timestamp_desc (attempts_of (py "alice") sample_locked_db)).
    auto.
  - exact H.
Defined.

(** X22, on inputs: nobody has tried to log in as ghost. *)
Lemma get_login_attempts_answers_witness :
  get_login_attempts ConnOk (py "ghost") sample_locked_db = JsonOk [].
Proof.
  destruct (get_login_attempts_answers (py "ghost") sample_locked_db)
    as [_ H].
  apply H. intros a Ha. vm_compute in Ha.
  repeat (destruct Ha as [<- | Ha]; [vm_compute; discriminate |]).
  destruct Ha.
Defined.
